(** * voice-to-text: a shallow embedding of [src/voice-to-text/index.ts]

    The extension records microphone audio with an external capture process,
    waits for the output file, and uploads it to a transcription endpoint.
    This development embeds the exported helpers ([loadConfig], [saveConfig],
    [buildFfmpegArgs], [waitForFile], [transcribeFile]) and the orchestration
    closure (the [recording] / [transcribing] pair with its handlers), and
    proves the properties the specification states about them.

    Conventions
    - a JavaScript string is its sequence of UTF-16 code units ([list N]);
    - code that can throw returns [Result]; a [try]/[catch] is a match on it;
    - effects ([ctx.ui] calls, process control, file and network access) are
      recorded in traces, and what the environment answers at a suspension
      point is an argument of the step that resumes there. *)

From Stdlib Require Import ZArith NArith List String Ascii Bool Lia.
Import ListNotations.

Set Implicit Arguments.
Set Warnings "-register-all".

(** ** Runtime substrate: strings *)

Module JS.

(** A string value: UTF-16 code units. *)
Definition jsstring := list N.

(** An ASCII literal of the source text. *)
Definition js (s : string) : jsstring :=
  map N_of_ascii (list_ascii_of_string s).

Definition str_eqb (a b : jsstring) : bool :=
  if list_eq_dec N.eq_dec a b then true else false.

(** Truthiness of a string: every string but the empty one. *)
Definition truthy (s : jsstring) : bool :=
  match s with [] => false | _ :: _ => true end.

(** [WhiteSpace] and [LineTerminator] code points, the set that
    [String.prototype.trim] strips. *)
Definition is_whitespace (c : N) : bool :=
  ((9 <=? c) && (c <=? 13)      (* TAB, LF, VT, FF, CR *)
   || (c =? 32)                 (* SP *)
   || (c =? 160)                (* NBSP *)
   || (c =? 5760)               (* U+1680 *)
   || ((8192 <=? c) && (c <=? 8202))  (* U+2000 .. U+200A *)
   || (c =? 8232) || (c =? 8233)      (* LS, PS *)
   || (c =? 8239) || (c =? 8287)      (* U+202F, U+205F *)
   || (c =? 12288)              (* U+3000 *)
   || (c =? 65279))%N.          (* ZWNBSP *)

Fixpoint trimStart (s : jsstring) : jsstring :=
  match s with
  | c :: r => if is_whitespace c then trimStart r else s
  | [] => []
  end.

Definition trimEnd (s : jsstring) : jsstring := rev (trimStart (rev s)).

Definition trim (s : jsstring) : jsstring := trimEnd (trimStart s).

Fixpoint startsWith (s pre : jsstring) : bool :=
  match pre, s with
  | [], _ => true
  | p :: pre', c :: s' => (p =? c)%N && startsWith s' pre'
  | _ :: _, [] => false
  end.

(** [s.includes(sub)]. *)
Fixpoint includes (s sub : jsstring) : bool :=
  startsWith s sub ||
  match s with
  | [] => false
  | _ :: r => includes r sub
  end.

(** Lower-casing of the letters A-Z.  [toLowerCase] is only ever compared
    with the literal "model"; no code unit outside A-Z lower-cases to one
    of its letters. *)
Definition lower_unit (c : N) : N :=
  if ((65 <=? c) && (c <=? 90))%N then (c + 32)%N else c.

Definition toLowerCase (s : jsstring) : jsstring := map lower_unit s.

(** Decimal digits of a non-negative integer, as [Number::toString] prints
    an integral value below 10^21. *)
Definition digit (d : N) : N := (48 + d)%N.

Fixpoint digits_fuel (fuel : nat) (n : N) (acc : jsstring) : jsstring :=
  match fuel with
  | O => acc
  | S f =>
      let acc' := digit (n mod 10) :: acc in
      if (n <? 10)%N then acc' else digits_fuel f (n / 10)%N acc'
  end.

Definition N_toString (n : N) : jsstring :=
  digits_fuel (S (N.to_nat (N.log2 n))) n [].

(** The outcome of code that may throw; the payload of [Throw] is the
    message of the error. *)
Inductive Result (A : Type) : Type :=
| Ok (a : A)
| Throw (message : jsstring).
Arguments Ok {A} a.
Arguments Throw {A} message.

(** Sequencing: a throw skips the rest of the block. *)
Definition bind {A B : Type} (r : Result A) (k : A -> Result B) : Result B :=
  match r with
  | Ok a => k a
  | Throw e => Throw e
  end.


(** *** JSON values

    A number is kept as the literal that denotes it: its IEEE-754 value is
    not interpreted.  An object is its own properties in creation order,
    one entry per key. *)
Inductive json : Type :=
| JNull
| JBool (b : bool)
| JNumber (literal : jsstring)
| JString (s : jsstring)
| JArray (elems : list json)
| JObject (props : list (jsstring * json)).

(** [CreateDataProperty]: overwrite in place, or append. *)
Fixpoint set_prop (k : jsstring) (v : json) (props : list (jsstring * json))
  : list (jsstring * json) :=
  match props with
  | [] => [(k, v)]
  | (k', v') :: r =>
      if str_eqb k k' then (k, v) :: r else (k', v') :: set_prop k v r
  end.

Fixpoint lookup_prop (k : jsstring) (props : list (jsstring * json))
  : option json :=
  match props with
  | [] => None
  | (k', v) :: r => if str_eqb k k' then Some v else lookup_prop k r
  end.

Definition is_digit (c : N) : bool := ((48 <=? c) && (c <=? 57))%N.

Fixpoint decimal_value (s : jsstring) (acc : N) : N :=
  match s with
  | [] => acc
  | c :: r => decimal_value r (10 * acc + (c - 48))%N
  end.

(** An array index: the canonical decimal string of an integer below
    2^32 - 1. *)
Definition array_index (k : jsstring) : option N :=
  match k with
  | [] => None
  | c :: r =>
      if forallb is_digit k && (negb (c =? 48)%N || match r with [] => true | _ => false end)
         && (List.length k <=? 10)%nat
      then let n := decimal_value k 0%N in
           if (n <? 4294967295)%N then Some n else None
      else None
  end.

(** Property read [v.k] / [v[k]].  [None] is [undefined]; reading a
    property of [null] throws a TypeError. *)
Definition get (v : json) (k : jsstring) : Result (option json) :=
  match v with
  | JNull => Throw (js "TypeError: Cannot read properties of null")
  | JObject props => Ok (lookup_prop k props)
  | JArray elems =>
      match array_index k with
      | Some i => Ok (nth_error elems (N.to_nat i))
      | None =>
          if str_eqb k (js "length")
          then Ok (Some (JNumber (N_toString (N.of_nat (List.length elems)))))
          else Ok None
      end
  | JString s =>
      match array_index k with
      | Some i => Ok (option_map (fun c => JString [c]) (nth_error s (N.to_nat i)))
      | None =>
          if str_eqb k (js "length")
          then Ok (Some (JNumber (N_toString (N.of_nat (List.length s)))))
          else Ok None
      end
  | JBool _ | JNumber _ => Ok None
  end.

(** [typeof x === "string"] on the result of a property read. *)
Definition as_string (x : option json) : option jsstring :=
  match x with
  | Some (JString s) => Some s
  | _ => None
  end.

(** *** JSON.parse *)

(** JSON white space: TAB, LF, CR, SP. *)
Definition is_json_ws (c : N) : bool :=
  ((c =? 9) || (c =? 10) || (c =? 13) || (c =? 32))%N.

Fixpoint skip_ws (s : jsstring) : jsstring :=
  match s with
  | c :: r => if is_json_ws c then skip_ws r else s
  | [] => []
  end.

Definition hex_value (c : N) : option N :=
  if ((48 <=? c) && (c <=? 57))%N then Some (c - 48)%N
  else if ((97 <=? c) && (c <=? 102))%N then Some (c - 87)%N
  else if ((65 <=? c) && (c <=? 70))%N then Some (c - 55)%N
  else None.

Definition hex4 (a b c d : N) : option N :=
  match hex_value a, hex_value b, hex_value c, hex_value d with
  | Some x, Some y, Some z, Some w => Some (((x * 16 + y) * 16 + z) * 16 + w)%N
  | _, _, _, _ => None
  end.

(** The characters of a string literal after its opening quote, up to and
    including the closing quote; [acc] holds the decoded units, reversed. *)
Fixpoint scan_string (s : jsstring) (acc : jsstring)
  : option (jsstring * jsstring) :=
  match s with
  | [] => None
  | c :: r =>
      if (c =? 34)%N then Some (rev acc, r)
      else if (c <? 32)%N then None
      else if (c =? 92)%N then
        match r with
        | [] => None
        | e :: r1 =>
            if (e =? 34)%N then scan_string r1 (34%N :: acc)
            else if (e =? 92)%N then scan_string r1 (92%N :: acc)
            else if (e =? 47)%N then scan_string r1 (47%N :: acc)
            else if (e =? 98)%N then scan_string r1 (8%N :: acc)
            else if (e =? 102)%N then scan_string r1 (12%N :: acc)
            else if (e =? 110)%N then scan_string r1 (10%N :: acc)
            else if (e =? 114)%N then scan_string r1 (13%N :: acc)
            else if (e =? 116)%N then scan_string r1 (9%N :: acc)
            else if (e =? 117)%N then
              match r1 with
              | h1 :: h2 :: h3 :: h4 :: r5 =>
                  match hex4 h1 h2 h3 h4 with
                  | Some u => scan_string r5 (u :: acc)
                  | None => None
                  end
              | _ => None
              end
            else None
        end
      else scan_string r (c :: acc)
  end.

Fixpoint span_digits (s : jsstring) : jsstring * jsstring :=
  match s with
  | c :: r =>
      if is_digit c then let (d, rest) := span_digits r in (c :: d, rest)
      else ([], s)
  | [] => ([], [])
  end.

(** A number literal at the head of [s]: an optional minus sign, an
    integer part (a lone 0, or a non-zero digit followed by digits), an
    optional fraction (a dot and at least one digit), an optional exponent
    (e or E, an optional sign, at least one digit). *)
Definition scan_number (s : jsstring) : option (jsstring * jsstring) :=
  let (sign, s1) :=
    match s with
    | c :: r => if (c =? 45)%N then ([c], r) else ([], s)
    | [] => ([], s)
    end in
  let (int, s2) := span_digits s1 in
  match int with
  | [] => None
  | d :: ds =>
      if (d =? 48)%N && negb (match ds with [] => true | _ => false end)
      then Some (sign ++ [d], ds ++ s2)   (* a leading 0 stands alone *)
      else
        let (frac, s3) :=
          match s2 with
          | c :: r =>
              if (c =? 46)%N then
                let (f, r') := span_digits r in
                match f with
                | [] => ([], s2)
                | _ => (c :: f, r')
                end
              else ([], s2)
          | [] => ([], s2)
          end in
        let (exp, s4) :=
          match s3 with
          | c :: r =>
              if ((c =? 101) || (c =? 69))%N then
                let (sg, r1) :=
                  match r with
                  | g :: r' => if ((g =? 43) || (g =? 45))%N then ([g], r') else ([], r)
                  | [] => ([], r)
                  end in
                let (e, r2) := span_digits r1 in
                match e with
                | [] => ([], s3)
                | _ => (c :: sg ++ e, r2)
                end
              else ([], s3)
          | [] => ([], s3)
          end in
        Some (sign ++ int ++ frac ++ exp, s4)
  end.

Inductive Parsed (A : Type) : Type :=
| POk (a : A) (rest : jsstring)
| PError
| PFuel.
Arguments POk {A} a rest.
Arguments PError {A}.
Arguments PFuel {A}.

(** Recursive descent; every call spends one unit of [fuel]. *)
Fixpoint parse_value (fuel : nat) (s : jsstring) {struct fuel} : Parsed json :=
  match fuel with
  | O => PFuel
  | S f =>
      match skip_ws s with
      | [] => PError
      | c :: r =>
          if (c =? 123)%N then           (* { *)
            match skip_ws r with
            | c' :: r' =>
                if (c' =? 125)%N then POk (JObject []) r'
                else parse_members f (c' :: r') []
            | [] => PError
            end
          else if (c =? 91)%N then       (* [ *)
            match skip_ws r with
            | c' :: r' =>
                if (c' =? 93)%N then POk (JArray []) r'
                else parse_elements f (c' :: r') []
            | [] => PError
            end
          else if (c =? 34)%N then       (* string *)
            match scan_string r [] with
            | Some (str, r') => POk (JString str) r'
            | None => PError
            end
          else if startsWith (c :: r) (js "null") then POk JNull (skipn 4 (c :: r))
          else if startsWith (c :: r) (js "true") then POk (JBool true) (skipn 4 (c :: r))
          else if startsWith (c :: r) (js "false") then POk (JBool false) (skipn 5 (c :: r))
          else
            match scan_number (c :: r) with
            | Some (lit, r') => POk (JNumber lit) r'
            | None => PError
            end
      end
  end
with parse_elements (fuel : nat) (s : jsstring) (acc : list json) {struct fuel}
  : Parsed json :=
  match fuel with
  | O => PFuel
  | S f =>
      match parse_value f s with
      | POk v r =>
          match skip_ws r with
          | c :: r' =>
              if (c =? 44)%N then parse_elements f r' (v :: acc)
              else if (c =? 93)%N then POk (JArray (rev (v :: acc))) r'
              else PError
          | [] => PError
          end
      | PError => PError
      | PFuel => PFuel
      end
  end
with parse_members (fuel : nat) (s : jsstring) (acc : list (jsstring * json))
  {struct fuel} : Parsed json :=
  match fuel with
  | O => PFuel
  | S f =>
      match skip_ws s with
      | q :: r =>
          if (q =? 34)%N then
            match scan_string r [] with
            | Some (k, r1) =>
                match skip_ws r1 with
                | c :: r2 =>
                    if (c =? 58)%N then
                      match parse_value f r2 with
                      | POk v r3 =>
                          match skip_ws r3 with
                          | d :: r4 =>
                              if (d =? 44)%N then parse_members f r4 (set_prop k v acc)
                              else if (d =? 125)%N then POk (JObject (set_prop k v acc)) r4
                              else PError
                          | [] => PError
                          end
                      | PError => PError
                      | PFuel => PFuel
                      end
                    else PError
                | [] => PError
                end
            | None => PError
            end
          else PError
      | [] => PError
      end
  end.

(** [JSON.parse(text)]: one value, surrounded by white space only. *)
Definition JSON_parse (text : jsstring) : Result json :=
  match parse_value (2 * List.length text + 2) text with
  | POk v rest =>
      match skip_ws rest with
      | [] => Ok v
      | _ :: _ => Throw (js "SyntaxError")
      end
  | PError => Throw (js "SyntaxError")
  | PFuel => Throw (js "SyntaxError")
  end.


(** A JSON text written with ' where the text has a double quote. *)
Definition jq (s : string) : jsstring :=
  map (fun c => if (c =? 39)%N then 34%N else c) (js s).

(** *** JSON.stringify *)

Definition hex_digit (d : N) : N :=
  if (d <? 10)%N then (48 + d)%N else (87 + d)%N.

(** [UnicodeEscape]: backslash, u, four lower-case hexadecimal digits. *)
Definition unicode_escape (c : N) : jsstring :=
  [92; 117;
   hex_digit ((c / 4096) mod 16); hex_digit ((c / 256) mod 16);
   hex_digit ((c / 16) mod 16); hex_digit (c mod 16)]%N.

Definition is_lead (c : N) : bool := ((55296 <=? c) && (c <=? 56319))%N.
Definition is_trail (c : N) : bool := ((56320 <=? c) && (c <=? 57343))%N.

(** The body of [QuoteJSONString]: short escapes, control characters and
    lone surrogates escaped, everything else copied. *)
Fixpoint quote_units (s : jsstring) : jsstring :=
  match s with
  | [] => []
  | c :: r =>
      if (c =? 8)%N then js "\b" ++ quote_units r
      else if (c =? 9)%N then js "\t" ++ quote_units r
      else if (c =? 10)%N then js "\n" ++ quote_units r
      else if (c =? 12)%N then js "\f" ++ quote_units r
      else if (c =? 13)%N then js "\r" ++ quote_units r
      else if (c =? 34)%N then [92; 34]%N ++ quote_units r
      else if (c =? 92)%N then [92; 92]%N ++ quote_units r
      else if (c <? 32)%N then unicode_escape c ++ quote_units r
      else if is_lead c then
        match r with
        | d :: r' =>
            if is_trail d then c :: d :: quote_units r'
            else unicode_escape c ++ quote_units r
        | [] => unicode_escape c
        end
      else if is_trail c then unicode_escape c ++ quote_units r
      else c :: quote_units r
  end.

Definition QuoteJSONString (s : jsstring) : jsstring :=
  [34%N] ++ quote_units s ++ [34%N].

(** [OrdinaryOwnPropertyKeys]: array indices in ascending order, then the
    other keys in creation order. *)
Fixpoint insert_index {A : Type} (i : N) (e : jsstring * A)
  (l : list (N * (jsstring * A))) : list (N * (jsstring * A)) :=
  match l with
  | [] => [(i, e)]
  | (j, e') :: r =>
      if (i <? j)%N then (i, e) :: l else (j, e') :: insert_index i e r
  end.

Fixpoint index_props {A : Type} (props : list (jsstring * A))
  : list (N * (jsstring * A)) :=
  match props with
  | [] => []
  | (k, v) :: r =>
      match array_index k with
      | Some i => insert_index i (k, v) (index_props r)
      | None => index_props r
      end
  end.

Definition own_properties {A : Type} (props : list (jsstring * A))
  : list (jsstring * A) :=
  map snd (index_props props) ++
  filter (fun kv => match array_index (fst kv) with Some _ => false | None => true end)
    props.

Fixpoint join (sep : jsstring) (parts : list jsstring) : jsstring :=
  match parts with
  | [] => []
  | [p] => p
  | p :: r => p ++ sep ++ join sep r
  end.

(** The brackets around the serialized members of an object or array. *)
Definition wrap (open close : N) (indent gap : jsstring)
  (partial : list jsstring) : jsstring :=
  match partial with
  | [] => [open; close]
  | _ :: _ =>
      match gap with
      | [] => [open] ++ join (js ",") partial ++ [close]
      | _ :: _ =>
          let inner := indent ++ gap in
          [open; 10%N] ++ inner ++ join ([44; 10]%N ++ inner) partial
          ++ [10%N] ++ indent ++ [close]
      end
  end.

Section Stringify.

(** [Number::toString] of the value a literal denotes ("null" when it
    is not finite): left to the runtime. *)
Variable Number_toString : jsstring -> jsstring.
Variable gap : jsstring.

Fixpoint SerializeJSONProperty (indent : jsstring) (v : json) : jsstring :=
  match v with
  | JNull => js "null"
  | JBool true => js "true"
  | JBool false => js "false"
  | JNumber lit => Number_toString lit
  | JString str => QuoteJSONString str
  | JArray elems =>
      wrap 91 93 indent gap
        (map (SerializeJSONProperty (indent ++ gap)) elems)
  | JObject props =>
      let colon := match gap with [] => js ":" | _ :: _ => js ": " end in
      wrap 123 125 indent gap
        (map (fun kv => QuoteJSONString (fst kv) ++ colon ++ snd kv)
           (own_properties
              (map (fun kv => (fst kv, SerializeJSONProperty (indent ++ gap) (snd kv)))
                 props)))
  end.

End Stringify.

(** [JSON.stringify(value, null, space)] for a numeric [space], and
    [JSON.stringify(value)] at [space = 0]. *)
Definition JSON_stringify (Number_toString : jsstring -> jsstring)
  (value : json) (space : N) : jsstring :=
  SerializeJSONProperty Number_toString
    (repeat 32%N (N.to_nat (N.min 10 space))) [] value.

End JS.
Import JS.

Notation "x <- e ;; k" := (bind e (fun x => k))
  (at level 61, e at next level, right associativity).

(** ** File system, as the configuration code sees it *)

Module Fs.

(** What a path holds.  The content of a file is the text that reading it
    as UTF-8 yields. *)
Inductive Entry : Type :=
| Absent                       (* nothing there *)
| Unreadable                   (* exists, but reading it fails: a directory,
                                  a file without read permission *)
| File (content : jsstring).

Record FS : Type := mkFS {
  entry : jsstring -> Entry;
  writable : jsstring -> bool   (* whether a write to the path succeeds *)
}.

Definition existsSync (fs : FS) (path : jsstring) : bool :=
  match entry fs path with
  | Absent => false
  | Unreadable | File _ => true
  end.

Definition readFileSync (fs : FS) (path : jsstring) : Result jsstring :=
  match entry fs path with
  | File content => Ok content
  | Absent => Throw (js "ENOENT")
  | Unreadable => Throw (js "EACCES")
  end.

(** A write that fails leaves the file system as it was; one that succeeds
    on a file that cannot be read leaves it unreadable. *)
Definition writeFileSync (fs : FS) (path data : jsstring) : Result FS :=
  if writable fs path
  then Ok (mkFS (fun q => if str_eqb q path
                          then match entry fs path with
                               | Unreadable => Unreadable
                               | Absent | File _ => File data
                               end
                          else entry fs q)
                (writable fs))
  else Throw (js "EACCES").

End Fs.

(** ** Configuration persistence *)

Definition MODEL_OPTIONS : list jsstring :=
  [js "nvidia/parakeet-tdt-0.6b-v3"; js "openai/whisper-large-v3"].

(** [{ model?: VoiceModel }]; [None] is an absent (or undefined) field. *)
Record Config : Type := mkConfig { model : option jsstring }.

Definition empty_config : Config := mkConfig None.

(** [parsed?.model]: undefined on null, the property otherwise. *)
Definition optional_model (parsed : json) : Result (option json) :=
  match parsed with
  | JNull => Ok None
  | _ => get parsed (js "model")
  end.

(** The condition [v && MODEL_OPTIONS.includes(v)].  [includes] compares
    with SameValueZero, so only a string equals an option; for any other
    value the conjunction is false whichever way its truthiness goes. *)
Definition recognized (v : option json) : option jsstring :=
  match v with
  | Some (JString m) =>
      if truthy m && existsb (str_eqb m) MODEL_OPTIONS then Some m else None
  | _ => None
  end.

(** The [try] block of [loadConfig]: [Ok (Some c)] returns [c] from inside
    the block, [Ok None] falls out of it. *)
Definition loadConfig_try (fs : Fs.FS) (configPath : jsstring)
  : Result (option Config) :=
  if negb (Fs.existsSync fs configPath) then Ok (Some empty_config)
  else
    raw <- Fs.readFileSync fs configPath ;;
    parsed <- JSON_parse raw ;;
    v <- optional_model parsed ;;
    match recognized v with
    | Some m => Ok (Some (mkConfig (Some m)))
    | None => Ok None
    end.

(** [loadConfig(configPath)]: the block, [catch {}], then [return {}]. *)
Definition loadConfig (fs : Fs.FS) (configPath : jsstring) : Result Config :=
  match loadConfig_try fs configPath with
  | Ok (Some c) => Ok c
  | Ok None => Ok empty_config
  | Throw _ => Ok empty_config
  end.

(** The object handed to [JSON.stringify]. *)
Definition Config_value (config : Config) : json :=
  match model config with
  | Some m => JObject [(js "model", JString m)]
  | None => JObject []
  end.

(** [saveConfig(config, configPath)]: the file system afterwards. *)
Definition saveConfig (Number_toString : jsstring -> jsstring)
  (fs : Fs.FS) (config : Config) (configPath : jsstring) : Fs.FS :=
  match Fs.writeFileSync fs configPath
          (JSON_stringify Number_toString (Config_value config) 2) with
  | Ok fs' => fs'
  | Throw _ => fs
  end.

(** ** Argument construction *)

(** [buildFfmpegArgs(filePath, input)]. *)
Definition buildFfmpegArgs (filePath input : jsstring) : list jsstring :=
  (* Common output settings: 16kHz mono WAV *)
  let outputArgs :=
    [js "-ac"; js "1"; js "-ar"; js "16000"; js "-c:a"; js "pcm_s16le"; filePath] in
  (* macOS: avfoundation input *)
  [js "-y"; js "-f"; js "avfoundation"; js "-i"; input] ++ outputArgs.

(** ** File-ready waiter *)

Module Waiter.

(** What one poll finds at the path. *)
Inductive Probe : Type :=
| Missing                 (* existsSync is false *)
| StatFails               (* existsSync is true, statSync throws *)
| Size (size : N).        (* statSync returns a size *)

Definition existsSync (p : Probe) : bool :=
  match p with
  | Missing => false
  | StatFails | Size _ => true
  end.

Definition statSync (p : Probe) : Result N :=
  match p with
  | Size n => Ok n
  | Missing | StatFails => Throw (js "ENOENT")
  end.

(** The environment of one call.  The loop test is evaluated for the
    first time [late 0] ms after [start] was read; test [k + 1] comes
    [100 + late (k + 1)] ms after test [k]: the delay asked of the timer,
    corrected by what the timer and the checks really took.  [probe k] is
    what the poll that follows test [k] finds. *)
Record World : Type := mkWorld {
  late : nat -> Z;
  probe : nat -> Probe
}.

Inductive Event : Type :=
| existsSync_call (path : jsstring)
| statSync_call (path : jsstring)
| setTimeout_call (ms : Z).

(** The [while] loop from its [k]-th test on; [elapsed] is
    [Date.now() - start] at that test.  [None]: the fuel ran out. *)
Fixpoint loop (fuel : nat) (w : World) (filePath : jsstring) (timeoutMs : Z)
  (k : nat) (elapsed : Z) : option (Result bool * list Event) :=
  match fuel with
  | O => None
  | S f =>
      if (elapsed <? timeoutMs)%Z then
        let next (seen : list Event) :=
          match loop f w filePath timeoutMs (S k)
                  (elapsed + 100 + late w (S k))%Z with
          | Some (r, tr) => Some (r, seen ++ setTimeout_call 100 :: tr)
          | None => None
          end in
        if existsSync (probe w k) then
          match statSync (probe w k) with
          | Ok size =>
              if (0 <? size)%N
              then Some (Ok true, [existsSync_call filePath; statSync_call filePath])
              else next [existsSync_call filePath; statSync_call filePath]
          | Throw _ =>      (* catch {} *)
              next [existsSync_call filePath; statSync_call filePath]
          end
        else next [existsSync_call filePath]
      else Some (Ok false, [])
  end.

(** [waitForFile(filePath, timeoutMs)]. *)
Definition waitForFile (fuel : nat) (w : World) (filePath : jsstring)
  (timeoutMs : Z) : option (Result bool * list Event) :=
  loop fuel w filePath timeoutMs 0 (late w 0).

(** [Date.now() - start] at the [k]-th test of the loop. *)
Fixpoint elapsed_at (w : World) (k : nat) : Z :=
  match k with
  | O => late w 0
  | S k' => (elapsed_at w k' + 100 + late w k)%Z
  end.

(** The file exists with non-zero size. *)
Definition ready (p : Probe) : bool :=
  match p with
  | Size n => (0 <? n)%N
  | Missing | StatFails => false
  end.

(** Fuel that suffices for a given timeout. *)
Definition enough (timeoutMs : Z) : nat := S (Z.to_nat timeoutMs).

End Waiter.

(** ** Transcription client *)

Module Transcribe.

Inductive Field : Type :=
| text_field (name value : jsstring)
| file_field (name : jsstring) (bytes : list N) (type filename : jsstring).

Record Request : Type := mkRequest {
  url : jsstring;
  method : jsstring;
  Authorization : jsstring;
  body : list Field
}.

(** A response of the transport: [ok], [status] (an unsigned short),
    [statusText], [headers.get("content-type")] and what [text()]
    resolves or rejects with. *)
Record Response : Type := mkResponse {
  ok : bool;
  status : N;
  statusText : jsstring;
  content_type : option jsstring;
  text : Result jsstring
}.

Record Params : Type := mkParams {
  filePath : jsstring;
  model : jsstring;
  fetchImpl : Request -> Result Response;
  baseUrl : option jsstring;
  apiKey : option jsstring
}.

(** The process environment and the file system of one call. *)
Record Env : Type := mkEnv {
  VENICE_API_BASE : option jsstring;
  VENICE_API_KEY : option jsstring;
  readFileSync : jsstring -> Result (list N)
}.

Inductive IO : Type :=
| read_file (path : jsstring)
| fetch_call (req : Request).

(** [path.basename]: trailing slashes dropped, then what follows the last
    slash. *)
Fixpoint drop_slashes (s : jsstring) : jsstring :=
  match s with
  | c :: r => if (c =? 47)%N then drop_slashes r else s
  | [] => []
  end.

Fixpoint last_segment (s acc : jsstring) : jsstring :=
  match s with
  | [] => rev acc
  | c :: r => if (c =? 47)%N then last_segment r [] else last_segment r (c :: acc)
  end.

Definition basename (path : jsstring) : jsstring :=
  last_segment (rev (drop_slashes (rev path))) [].

(** The destructuring defaults of the parameter object. *)
Definition effective_baseUrl (env : Env) (params : Params) : jsstring :=
  match baseUrl params with
  | Some b => b
  | None =>
      match VENICE_API_BASE env with
      | Some b => b
      | None => js "https://api.venice.ai/api/v1"
      end
  end.

Definition effective_apiKey (env : Env) (params : Params) : option jsstring :=
  match apiKey params with
  | Some k => Some k
  | None => VENICE_API_KEY env
  end.

(** [!apiKey || apiKey.trim() === ""]. *)
Definition key_missing (k : option jsstring) : bool :=
  match k with
  | None => true
  | Some key => negb (truthy key) || str_eqb (trim key) []
  end.

Definition build_request (env : Env) (params : Params) (key : jsstring)
  (buf : list N) : Request :=
  mkRequest
    (effective_baseUrl env params ++ js "/audio/transcriptions")
    (js "POST")
    (js "Bearer " ++ key)
    [text_field (js "model") (model params);
     text_field (js "language") (js "en");
     text_field (js "prompt")
       (js "Technical, programming context. Preserve code identifiers, file paths, CLI flags, and library names when possible.");
     text_field (js "response_format") (js "json");
     text_field (js "timestamps") (js "false");
     file_field (js "file") buf (js "audio/wav") (basename (filePath params))].

(** The [try] block over a JSON body. *)
Definition extract_text (Number_toString : jsstring -> jsstring)
  (body : jsstring) : Result jsstring :=
  data <- JSON_parse body ;;
  t <- get data (js "text") ;;
  match as_string t with
  | Some s => Ok s
  | None =>
      (* Some APIs return {transcription: "..."} *)
      u <- get data (js "transcription") ;;
      match as_string u with
      | Some s => Ok s
      | None => Ok (JSON_stringify Number_toString data 0)
      end
  end.

(** [res.headers.get("content-type") || ""]. *)
Definition ctype_of (res : Response) : jsstring :=
  match content_type res with
  | Some c => if truthy c then c else []
  | None => []
  end.

(** Everything after the transport has answered. *)
Definition handle_response (Number_toString : jsstring -> jsstring)
  (res : Response) : Result jsstring :=
  if negb (ok res) then
    errText <- text res ;;
    Throw (N_toString (status res) ++ js " " ++ statusText res ++ js ": " ++ errText)
  else
    let ctype := ctype_of res in
    body <- text res ;;
    if includes ctype (js "application/json") then
      match extract_text Number_toString body with
      | Ok s => Ok s
      | Throw _ => Ok body
      end
    else Ok body.

(** [transcribeFile(params)]: what the promise settles with, and the
    file and network accesses made, in order. *)
Definition transcribeFile (Number_toString : jsstring -> jsstring)
  (env : Env) (params : Params) : Result jsstring * list IO :=
  let apiKey := effective_apiKey env params in
  if key_missing apiKey then (Throw (js "VENICE_API_KEY is not set"), [])
  else
    let key := match apiKey with Some k => k | None => [] end in
    match readFileSync env (filePath params) with
    | Throw e => (Throw e, [read_file (filePath params)])
    | Ok buf =>
        let req := build_request env params key buf in
        let io := [read_file (filePath params); fetch_call req] in
        match fetchImpl params req with
        | Throw e => (Throw e, io)
        | Ok res => (handle_response Number_toString res, io)
        end
    end.

End Transcribe.

(** ** Orchestration: the closure of the extension and its handlers

    A handler runs until it suspends at an [await]; what it still has to do
    is a [Task] that the environment resumes later with its answer.  Handlers
    may therefore overlap, as the [transcribing] flag of the source
    anticipates.  The capture processes are the environment's: each is
    running until its [exit] event is delivered, or until its spawn is
    reported to have failed ([error], and no [exit] after it). *)

Module Orchestration.

Definition HOTKEY : jsstring := js "ctrl+shift+r".
Definition STATUS_KEY : jsstring := js "voice".

Definition CONFIG_PATH (homedir : jsstring) : jsstring :=
  homedir ++ js "/.pi/agent/extensions/voice-to-text.json".

Record RecordingState : Type := mkRecording {
  proc : nat;                  (* the handle of the capture process *)
  filePath : jsstring;
  logPath : jsstring;
  input : jsstring;
  startedAt : Z
}.

(** The variables of the closure. *)
Record Closure : Type := mkClosure {
  recording : option RecordingState;
  transcribing : bool;
  ffmpegAvailable : option bool;
  preferredInput : option jsstring;
  preferredModel : jsstring
}.

Definition initial : Closure :=
  mkClosure None false None None (js "openai/whisper-large-v3").

Record Ctx : Type := mkCtx { hasUI : bool }.

(** What a handler does to the outside, in order. *)
Inductive Effect : Type :=
| notify (message level : jsstring)
| setStatus (key text : jsstring)
| setEditorText (text : jsstring)
| exec (command : jsstring) (args : list jsstring)
| ui_input (title placeholder : jsstring)
| ui_select (title : jsstring) (options : list jsstring)
| mkdtemp (prefix : jsstring)
| spawn (command : jsstring) (args : list jsstring) (p : nat)
| kill (p : nat) (signal : jsstring)
| setTimeout (ms : Z).

Inductive ProcStatus : Type :=
| NotSpawned
| Running
| Exited (exitCode : option Z).   (* [proc.exitCode] is set, or a signal
                                    ended the process (no code); no [exit]
                                    event is to come *)

(** A suspended handler, or a timer callback not yet run. *)
Inductive Task : Type :=
| start_awaits_ffmpeg (ctx : Ctx) (cached : option bool)
| start_awaits_input (ctx : Ctx)
| early_exit_check (ctx : Ctx) (p : nat) (input logPath : jsstring)
| stop_awaits_exit (ctx : Ctx) (r : RecordingState)
| stop_awaits_outcome (ctx : Ctx) (r : RecordingState)
| command_awaits_select (ctx : Ctx).

Record System : Type := mkSystem {
  closure : Closure;
  procs : nat -> ProcStatus;
  spawned : nat;               (* processes spawned so far; the next handle *)
  pending : list Task;
  fs : Fs.FS
}.

Definition initial_system (fs0 : Fs.FS) : System :=
  mkSystem initial (fun _ => NotSpawned) 0 [] fs0.

(** What the environment holds when a handler (re)starts running. *)
Record Host : Type := mkHost {
  PI_VOICE_INPUT : option jsstring;      (* process.env.PI_VOICE_INPUT *)
  tmp : Result jsstring;                 (* what mkdtempSync would give *)
  now : Z;                               (* Date.now() *)
  log : Result jsstring                  (* readFileSync(logPath, "utf-8") *)
}.

Definition with_closure (c : Closure) (s : System) : System :=
  mkSystem c (procs s) (spawned s) (pending s) (fs s).

Definition suspend (t : Task) (s : System) : System :=
  mkSystem (closure s) (procs s) (spawned s) (pending s ++ [t]) (fs s).

Definition is_some {A : Type} (o : option A) : bool :=
  match o with Some _ => true | None => false end.

(** Truthiness of a string that may be undefined. *)
Definition truthy_opt (o : option jsstring) : bool :=
  match o with Some v => truthy v | None => false end.

(** The guard of [startRecording]: [recording || transcribing]. *)
Definition start_blocked (c : Closure) : bool :=
  is_some (recording c) || transcribing c.

(** [startRecording(ctx)], up to [await ensureFfmpeg(ctx)].  A cached
    answer is returned at once; otherwise [pi.exec] is outstanding. *)
Definition startRecording (ctx : Ctx) (s : System) : System * list Effect :=
  if start_blocked (closure s) then (s, [])
  else
    match ffmpegAvailable (closure s) with
    | Some b => (suspend (start_awaits_ffmpeg ctx (Some b)) s, [])
    | None =>
        (suspend (start_awaits_ffmpeg ctx None) s,
         [exec (js "which") [js "ffmpeg"]])
    end.

(** From [const dir = mkdtempSync(...)] to the end of [startRecording]:
    the process is spawned, its listeners registered, the session
    recorded. *)
Definition spawn_recording (ctx : Ctx) (input : option jsstring) (h : Host)
  (s : System) : System * list Effect :=
  let input := if truthy_opt input
               then match input with Some i => i | None => [] end
               else js ":0" in       (* Default input (macOS only) *)
  match tmp h with
  | Throw _ => (s, [mkdtemp (js "pi-voice-")])
  | Ok dir =>
      let filePath := dir ++ js "/recording.wav" in
      let logPath := dir ++ js "/ffmpeg.log" in
      let args := buildFfmpegArgs filePath input in
      let p := spawned s in
      let c := closure s in
      let c' := mkClosure (Some (mkRecording p filePath logPath input (now h)))
                  (transcribing c) (ffmpegAvailable c) (Some input)
                  (preferredModel c) in
      (mkSystem c'
         (fun q => if Nat.eqb q p then Running else procs s q)
         (S p)
         (pending s ++ [early_exit_check ctx p input logPath])
         (fs s),
       [mkdtemp (js "pi-voice-");
        spawn (js "ffmpeg") args p;
        setStatus STATUS_KEY
          ([55356; 57241]%N ++ js " Recording... (" ++ preferredModel c
           ++ js ") (Ctrl+Shift+R to stop)");
        notify (js "Recording started (input: " ++ input ++ js ")") (js "info")]
       ++ (if truthy_opt (PI_VOICE_INPUT h) then []
           else [notify (js "Tip: set PI_VOICE_INPUT to avoid the prompt next time")
                   (js "info")])
       ++ [setTimeout 300])
  end.

(** [startRecording] resumed after [ensureFfmpeg]: [code] is what
    [pi.exec] settled with when it was outstanding. *)
Definition start_after_ffmpeg (ctx : Ctx) (cached : option bool)
  (code : Result Z) (h : Host) (s : System) : System * list Effect :=
  let ensured : Result (System * bool * list Effect) :=
    match cached with
    | Some b => Ok (s, b, [])
    | None =>
        n <- code ;;
        let available := (n =? 0)%Z in
        let c := closure s in
        Ok (with_closure
              (mkClosure (recording c) (transcribing c) (Some available)
                 (preferredInput c) (preferredModel c)) s,
            available,
            if available then []
            else [notify (js "ffmpeg not found. Install ffmpeg to enable voice capture.")
                    (js "error")])
    end in
  match ensured with
  | Throw _ => (s, [])
  | Ok (s1, ok, eff) =>
      if negb ok then (s1, eff)
      else
        let inputOverride := PI_VOICE_INPUT h in
        let input := match inputOverride with
                     | Some i => Some i
                     | None => preferredInput (closure s1)
                     end in
        if negb (truthy_opt inputOverride) && negb (truthy_opt input) && hasUI ctx
        then (suspend (start_awaits_input ctx) s1,
              eff ++ [ui_input (js "Select microphone")
                        (js "Enter avfoundation input (e.g. :0 or 0:0). Default is :0")])
        else let (s2, eff2) := spawn_recording ctx input h s1 in (s2, eff ++ eff2)
  end.

(** [startRecording] resumed after [ctx.ui.input]. *)
Definition start_after_input (ctx : Ctx) (answer : option jsstring) (h : Host)
  (s : System) : System * list Effect :=
  spawn_recording ctx answer h s.

(** The timer callback that detects an immediate failure. *)
Definition check_early_exit (p : nat) (input : jsstring) (h : Host)
  (s : System) : System * list Effect :=
  match procs s p with
  | Exited (Some _) =>
      let logText := match log h with Ok t => t | Throw _ => [] end in
      (s, [notify
             (if truthy (trim logText)
              then js "ffmpeg exited early (input: " ++ input ++ js "): " ++ logText
              else js "ffmpeg exited early (input: " ++ input
                   ++ js "). Check mic permissions or input device.")
             (js "error")])
  | _ => (s, [])
  end.

(** The [exit] listener that [startRecording] registers on the process
    it spawned. *)
Definition on_exit (p : nat) (c : Closure) : Closure * list Effect :=
  match recording c with
  | Some r =>
      if Nat.eqb (proc r) p
      then (mkClosure None (transcribing c) (ffmpegAvailable c)
              (preferredInput c) (preferredModel c),
            [setStatus STATUS_KEY []])
      else (c, [])
  | None => (c, [])
  end.

(** [stopRecording(ctx)], up to the wait for the process to exit. *)
Definition stopRecording (ctx : Ctx) (h : Host) (s : System)
  : System * list Effect :=
  let c := closure s in
  match recording c with
  | None => (s, [])
  | Some r =>
      if transcribing c then (s, [])
      else
        let c' := mkClosure None (transcribing c) (ffmpegAvailable c)
                    (preferredInput c) (preferredModel c) in
        (suspend (stop_awaits_exit ctx r) (with_closure c' s),
         [setStatus STATUS_KEY ([9203%N] ++ js " Processing audio...")]
         ++ match procs s (proc r) with
            | Exited (Some st) =>
                if (st =? 0)%Z then []
                else match log h with
                     | Ok logText =>
                         if truthy (trim logText)
                         then [notify (js "ffmpeg error (input: " ++ input r
                                       ++ js "): " ++ logText) (js "error")]
                         else []
                     | Throw _ => []
                     end
            | _ => []
            end
         ++ [kill (proc r) (js "SIGINT"); setTimeout 2000])
  end.

(** [stopRecording] resumed when the process has exited or 2000 ms have
    passed: the flag is raised and [waitForFile] begins. *)
Definition stop_after_exit (ctx : Ctx) (r : RecordingState) (s : System)
  : System * list Effect :=
  let c := closure s in
  (suspend (stop_awaits_outcome ctx r)
     (with_closure
        (mkClosure (recording c) true (ffmpegAvailable c)
           (preferredInput c) (preferredModel c)) s),
   []).

(** How the [try] block of [stopRecording] ends: the file never became
    ready, or [transcribeFile] settled. *)
Inductive StopOutcome : Type :=
| not_ready
| transcribed (result : Result jsstring).

(** The rest of [stopRecording], through [finally]. *)
Definition stop_after_outcome (r : RecordingState) (o : StopOutcome)
  (h : Host) (s : System) : System * list Effect :=
  let c := closure s in
  (with_closure
     (mkClosure (recording c) false (ffmpegAvailable c)
        (preferredInput c) (preferredModel c)) s,
   match o with
   | not_ready =>
       let logText := match log h with Ok t => t | Throw _ => [] end in
       [notify (js "Recording file was not created. Check mic permissions or input device."
                ++ (if truthy logText
                    then js " ffmpeg log saved at " ++ logPath r
                    else []))
          (js "error")]
   | transcribed (Ok text) =>
       if truthy text && truthy (trim text)
       then [setEditorText (trim text);
             notify (js "Transcription loaded into editor") (js "info")]
       else [notify (js "Transcription was empty") (js "warning")]
   | transcribed (Throw message) =>
       [notify (js "Transcription failed: " ++ message) (js "error")]
   end
   ++ [setStatus STATUS_KEY []]).

(** The handler of the shortcut. *)
Definition shortcut_handler (ctx : Ctx) (h : Host) (s : System)
  : System * list Effect :=
  if negb (hasUI ctx) then (s, [])
  else if is_some (recording (closure s)) then stopRecording ctx h s
  else startRecording ctx s.

(** The handler of the [voice] command, up to [await ctx.ui.select]. *)
Definition command_handler (args : option jsstring) (ctx : Ctx) (h : Host)
  (s : System) : System * list Effect :=
  if negb (hasUI ctx)
  then (s, [notify (js "voice requires interactive mode") (js "error")])
  else
    let trimmed := trim (match args with Some a => a | None => [] end) in
    if str_eqb (toLowerCase trimmed) (js "model") then
      (suspend (command_awaits_select ctx) s,
       [ui_select (js "Select voice model")
          (map (fun m => if str_eqb m (preferredModel (closure s))
                         then [8226; 32]%N ++ m else m)
             MODEL_OPTIONS)])
    else if is_some (recording (closure s)) then stopRecording ctx h s
    else startRecording ctx s.

Section Platform.

Variable Number_toString : jsstring -> jsstring.
Variable homedir : jsstring.

(** The [voice model] sub-command resumed after the selection. *)
Definition command_after_select (selected : option jsstring) (s : System)
  : System * list Effect :=
  if truthy_opt selected then
    let sel := match selected with Some v => v | None => [] end in
    let normalized :=       (* a leading bullet and white space removed *)
      match sel with
      | c :: r => if (c =? 8226)%N then trimStart r else sel
      | [] => sel
      end in
    if existsb (str_eqb normalized) MODEL_OPTIONS then
      let c := closure s in
      (mkSystem
         (mkClosure (recording c) (transcribing c) (ffmpegAvailable c)
            (preferredInput c) normalized)
         (procs s) (spawned s) (pending s)
         (saveConfig Number_toString (fs s) (mkConfig (Some normalized))
            (CONFIG_PATH homedir)),
       [notify (js "Voice model set to " ++ normalized) (js "info")])
    else (s, [notify (js "Invalid model selection") (js "error")])
  else (s, []).

(** The [session_start] listener. *)
Definition on_session_start (ctx : Ctx) (s : System) : System * list Effect :=
  match loadConfig (fs s) (CONFIG_PATH homedir) with
  | Ok (mkConfig (Some m)) =>
      if truthy m then
        let c := closure s in
        (with_closure
           (mkClosure (recording c) (transcribing c) (ffmpegAvailable c)
              (preferredInput c) m) s,
         if hasUI ctx then [notify (js "Voice model: " ++ m) (js "info")] else [])
      else (s, [])
  | _ => (s, [])
  end.

(** The [session_shutdown] listener. *)
Definition on_session_shutdown (s : System) : System * list Effect :=
  match recording (closure s) with
  | Some r => (s, [kill (proc r) (js "SIGINT")])
  | None => (s, [])
  end.

(** What the environment answers when it resumes a task. *)
Inductive Answer : Type :=
| settled (code : Result Z)            (* pi.exec, or the cached answer *)
| input_given (text : option jsstring) (* ctx.ui.input *)
| timer                                (* a timer fired, or the process exited *)
| outcome (o : StopOutcome)            (* waitForFile / transcribeFile *)
| selected (choice : option jsstring). (* ctx.ui.select *)

Definition resume_task (t : Task) (a : Answer) (h : Host) (s : System)
  : option (System * list Effect) :=
  match t, a with
  | start_awaits_ffmpeg ctx cached, settled code =>
      Some (start_after_ffmpeg ctx cached code h s)
  | start_awaits_input ctx, input_given text =>
      Some (start_after_input ctx text h s)
  | early_exit_check ctx p input logPath, timer =>
      Some (check_early_exit p input h s)
  | stop_awaits_exit ctx r, timer => Some (stop_after_exit ctx r s)
  | stop_awaits_outcome ctx r, outcome o => Some (stop_after_outcome r o h s)
  | command_awaits_select ctx, selected choice =>
      Some (command_after_select choice s)
  | _, _ => None
  end.

Fixpoint remove_nth {A : Type} (i : nat) (l : list A) : list A :=
  match l, i with
  | [], _ => []
  | _ :: r, O => r
  | x :: r, S i' => x :: remove_nth i' r
  end.

(** What can happen next. *)
Inductive Label : Type :=
| shortcut (ctx : Ctx) (h : Host)
| command (args : option jsstring) (ctx : Ctx) (h : Host)
| session_start (ctx : Ctx)
| session_shutdown
| resume (i : nat) (a : Answer) (h : Host)   (* the i-th pending task *)
| proc_exit (p : nat) (exitCode : option Z)
| proc_error (p : nat) (errno : Z) (message : jsstring)  (* the spawn failed *)
| kill_error (p : nat) (message : jsstring).   (* a signal was not delivered *)

(** One step; [None] when the label is not possible in the state. *)
Definition step (l : Label) (s : System) : option (System * list Effect) :=
  match l with
  | shortcut ctx h => Some (shortcut_handler ctx h s)
  | command args ctx h => Some (command_handler args ctx h s)
  | session_start ctx => Some (on_session_start ctx s)
  | session_shutdown => Some (on_session_shutdown s)
  | resume i a h =>
      match nth_error (pending s) i with
      | Some t =>
          resume_task t a h
            (mkSystem (closure s) (procs s) (spawned s)
               (remove_nth i (pending s)) (fs s))
      | None => None
      end
  | proc_exit p exitCode =>
      match procs s p with
      | Running =>
          let (c, eff) := on_exit p (closure s) in
          Some (mkSystem c
                  (fun q => if Nat.eqb q p then Exited exitCode else procs s q)
                  (spawned s) (pending s) (fs s),
                eff)
      | _ => None
      end
  | proc_error p errno message =>
      (* A spawn that fails: Node stores the negative error number in
         [exitCode], emits [error], and never emits [exit]. *)
      match procs s p with
      | Running =>
          if (errno <? 0)%Z then
            Some (mkSystem (closure s)
                    (fun q => if Nat.eqb q p then Exited (Some errno) else procs s q)
                    (spawned s) (pending s) (fs s),
                  [notify (js "ffmpeg failed to start: " ++ message) (js "error")])
          else None
      | _ => None
      end
  | kill_error p message =>
      (* [proc.kill] that could not signal the process emits [error] too;
         the process is as it was. *)
      match procs s p with
      | NotSpawned => None
      | _ => Some (s, [notify (js "ffmpeg failed to start: " ++ message)
                         (js "error")])
      end
  end.

(** The states the extension can be in. *)
Inductive reachable (fs0 : Fs.FS) : System -> Prop :=
| reachable_initial : reachable fs0 (initial_system fs0)
| reachable_step : forall s l s' eff,
    reachable fs0 s -> step l s = Some (s', eff) -> reachable fs0 s'.

(** A run: the labels in order. *)
Fixpoint run (labels : list Label) (s : System) : option System :=
  match labels with
  | [] => Some s
  | l :: rest =>
      match step l s with
      | Some (s', _) => run rest s'
      | None => None
      end
  end.

(** The capture processes that have been spawned and have neither exited
    nor failed to start. *)
Definition running_processes (s : System) : list nat :=
  filter (fun p => match procs s p with Running => true | _ => false end)
    (seq 0 (spawned s)).

End Platform.

End Orchestration.

(** ** Observations on traces and states *)

(** The existence checks and the timers in a trace of [waitForFile]. *)
Definition polls_of (tr : list Waiter.Event) : nat :=
  List.length
    (filter (fun e => match e with Waiter.existsSync_call _ => true | _ => false end) tr).

Definition timers_of (tr : list Waiter.Event) : nat :=
  List.length
    (filter (fun e => match e with Waiter.setTimeout_call _ => true | _ => false end) tr).

(** The events of one poll: the existence check, then the size check when
    the file exists. *)
Definition poll_events (filePath : jsstring) (p : Waiter.Probe)
  : list Waiter.Event :=
  Waiter.existsSync_call filePath
  :: (if Waiter.existsSync p then [Waiter.statSync_call filePath] else []).

(** Polling at a fixed interval of 100 ms, as the specification words it:
    [n] polls from poll [k] on, each followed by one timer of 100 ms, and
    nothing else. *)
Fixpoint polling_schedule (w : Waiter.World) (filePath : jsstring) (k n : nat)
  : list Waiter.Event :=
  match n with
  | O => []
  | S n' =>
      poll_events filePath (Waiter.probe w k)
      ++ Waiter.setTimeout_call 100 :: polling_schedule w filePath (S k) n'
  end.

(** The signals among the effects of a handler. *)
Definition signals (eff : list Orchestration.Effect) : list Orchestration.Effect :=
  filter (fun e => match e with Orchestration.kill _ _ => true | _ => false end) eff.

(** The parameter object of the call in [stopRecording],
    [transcribeFile({ filePath, model: preferredModel })]: the file of the
    session and the model preferred when the call is made; the transport,
    the base URL and the key are left to their defaults. *)
Definition upload_params (r : Orchestration.RecordingState)
  (c : Orchestration.Closure)
  (fetch : Transcribe.Request -> Result Transcribe.Response)
  : Transcribe.Params :=
  Transcribe.mkParams (Orchestration.filePath r) (Orchestration.preferredModel c)
    fetch None None.

(** A suspended [startRecording] that can no longer spawn a process: one
    that holds the cached answer "ffmpeg is not available".  Every other
    kind of task is harmless in this respect. *)
Definition start_inert (t : Orchestration.Task) : bool :=
  match t with
  | Orchestration.start_awaits_ffmpeg _ (Some false) => true
  | Orchestration.start_awaits_ffmpeg _ _ => false
  | Orchestration.start_awaits_input _ => false
  | _ => true
  end.

(** [ffmpegAvailable === false], and no [startRecording] is suspended past
    that test. *)
Definition ffmpeg_known_missing (s : Orchestration.System) : Prop :=
  Orchestration.ffmpegAvailable (Orchestration.closure s) = Some false /\
  forallb start_inert (Orchestration.pending s) = true.

(** The notifications among the effects of a handler. *)
Definition notifications (eff : list Orchestration.Effect)
  : list Orchestration.Effect :=
  filter (fun e => match e with Orchestration.notify _ _ => true | _ => false end) eff.

(** ** Concrete settings, used to run the definitions *)

(** A transport that always answers with [res], a readable one-byte file,
    and the key "key": the setting of the repository's own tests. *)
Definition test_env : Transcribe.Env :=
  Transcribe.mkEnv None None (fun _ => Ok [120%N]).

Definition test_params (res : Transcribe.Response) (apiKey : option jsstring)
  : Transcribe.Params :=
  Transcribe.mkParams (js "/tmp/audio.wav") (js "openai/whisper-large-v3")
    (fun _ => Ok res) (Some (js "http://example")) apiKey.

(** A host with a microphone override and a temporary directory. *)
Definition test_host : Orchestration.Host :=
  Orchestration.mkHost (Some (js ":0")) (Ok (js "/tmp/pi-voice-a1")) 1000
    (Throw (js "ENOENT")).

Definition test_fs : Fs.FS := Fs.mkFS (fun _ => Fs.Absent) (fun _ => true).

(** The state after one press of the shortcut and the answer of
    [which ffmpeg]: a session is active on process 0. *)
Definition recording_system : Orchestration.System :=
  match Orchestration.run (fun lit => lit) (js "/home/u")
          [Orchestration.shortcut (Orchestration.mkCtx true) test_host;
           Orchestration.resume 0 (Orchestration.settled (Ok 0%Z)) test_host]
          (Orchestration.initial_system test_fs) with
  | Some s => s
  | None => Orchestration.initial_system test_fs
  end.

(** A file that appears at the third poll, under a timer that is 3 ms late
    each time. *)
Definition test_world : Waiter.World :=
  Waiter.mkWorld (fun _ => 3%Z)
    (fun k => if (k <? 2)%nat then Waiter.Missing else Waiter.Size 1).

(** A file that never appears. *)
Definition empty_world : Waiter.World :=
  Waiter.mkWorld (fun _ => 0%Z) (fun _ => Waiter.Missing).

(** A response of the transport. *)
Definition ok_response (content_type : option jsstring) (body : jsstring)
  : Transcribe.Response :=
  Transcribe.mkResponse true 200 (js "OK") content_type (Ok body).

(** The state after a second press of the shortcut: the session is being
    stopped. *)
Definition stopping_system : Orchestration.System :=
  match Orchestration.run (fun lit => lit) (js "/home/u")
          [Orchestration.shortcut (Orchestration.mkCtx true) test_host]
          recording_system with
  | Some s => s
  | None => recording_system
  end.

(** The state once the wait for the exit is over: the transcription is in
    flight. *)
Definition transcribing_system : Orchestration.System :=
  match Orchestration.run (fun lit => lit) (js "/home/u")
          [Orchestration.resume 1 Orchestration.timer test_host]
          stopping_system with
  | Some s => s
  | None => stopping_system
  end.

(** The state after a press of the shortcut and a failing [which ffmpeg]. *)
Definition missing_system : Orchestration.System :=
  match Orchestration.run (fun lit => lit) (js "/home/u")
          [Orchestration.shortcut (Orchestration.mkCtx true) test_host;
           Orchestration.resume 0 (Orchestration.settled (Ok 1%Z)) test_host]
          (Orchestration.initial_system test_fs) with
  | Some s => s
  | None => Orchestration.initial_system test_fs
  end.

(** The state after the first press of the shortcut: [which ffmpeg] is
    outstanding. *)
Definition starting_system : Orchestration.System :=
  match Orchestration.run (fun lit => lit) (js "/home/u")
          [Orchestration.shortcut (Orchestration.mkCtx true) test_host]
          (Orchestration.initial_system test_fs) with
  | Some s => s
  | None => Orchestration.initial_system test_fs
  end.

(** The session of [recording_system]. *)
Definition test_session : Orchestration.RecordingState :=
  Orchestration.mkRecording 0 (js "/tmp/pi-voice-a1/recording.wav")
    (js "/tmp/pi-voice-a1/ffmpeg.log") (js ":0") 1000.

(** A host without a microphone override. *)
Definition plain_host : Orchestration.Host :=
  Orchestration.mkHost None (Ok (js "/tmp/pi-voice-b2")) 2000 (Throw (js "ENOENT")).

(** The host a moment later: [mkdtempSync] gives a fresh directory. *)
Definition later_host : Orchestration.Host :=
  Orchestration.mkHost (Some (js ":0")) (Ok (js "/tmp/pi-voice-c3")) 1005
    (Throw (js "ENOENT")).

(** Two presses of the shortcut on first use, the second while the first
    [startRecording] awaits the answer of [which ffmpeg]; then both
    answers. *)
Definition overlapping_starts : list Orchestration.Label :=
  [Orchestration.shortcut (Orchestration.mkCtx true) test_host;
   Orchestration.shortcut (Orchestration.mkCtx true) test_host;
   Orchestration.resume 0 (Orchestration.settled (Ok 0%Z)) test_host;
   Orchestration.resume 0 (Orchestration.settled (Ok 0%Z)) later_host].

(** A recording is stopped, another is started and stopped while the
    first [stopRecording] waits for its process to exit; both waits end,
    and the first [stopRecording] finishes. *)
Definition overlapping_stops : list Orchestration.Label :=
  [Orchestration.shortcut (Orchestration.mkCtx true) test_host;
   Orchestration.resume 0 (Orchestration.settled (Ok 0%Z)) test_host;
   Orchestration.shortcut (Orchestration.mkCtx true) test_host;
   Orchestration.shortcut (Orchestration.mkCtx true) test_host;
   Orchestration.resume 2 (Orchestration.settled (Ok 0%Z)) later_host;
   Orchestration.shortcut (Orchestration.mkCtx true) test_host;
   Orchestration.resume 1 Orchestration.timer test_host;
   Orchestration.resume 2 Orchestration.timer test_host;
   Orchestration.resume 2
     (Orchestration.outcome (Orchestration.transcribed (Ok (js "hi")))) test_host].

(** The session of the second recording in these runs. *)
Definition second_session : Orchestration.RecordingState :=
  Orchestration.mkRecording 1 (js "/tmp/pi-voice-c3/recording.wav")
    (js "/tmp/pi-voice-c3/ffmpeg.log") (js ":0") 1005.

(** * Theorems *)

(** C1: for every output path P and input device D, [buildFfmpegArgs P D] is
    exactly the twelve-element list -y -f avfoundation -i D -ac 1 -ar 16000
    -c:a pcm_s16le P, a function of its two arguments alone. *)
Theorem buildFfmpegArgs_exact : forall P D : jsstring,
  buildFfmpegArgs P D =
  [js "-y"; js "-f"; js "avfoundation"; js "-i"; D;
   js "-ac"; js "1"; js "-ar"; js "16000"; js "-c:a"; js "pcm_s16le"; P].
Proof.
  intros P D. unfold buildFfmpegArgs. reflexivity.
Qed.

(** ** The runtime substrate: the parser terminates, numbers print in decimal *)

Lemma skip_ws_length : forall s, (List.length (skip_ws s) <= List.length s)%nat.
Proof.
  induction s as [ | c r IH]; simpl; [lia|].
  destruct (is_json_ws c); simpl; lia.
Qed.

Lemma skip_ws_cons : forall s c r,
  skip_ws s = c :: r -> (List.length r < List.length s)%nat.
Proof.
  intros s c r H. pose proof (skip_ws_length s) as Hl. rewrite H in Hl.
  simpl in Hl. lia.
Qed.

Lemma scan_string_length : forall n s acc str r,
  (List.length s <= n)%nat ->
  scan_string s acc = Some (str, r) -> (List.length r < List.length s)%nat.
Proof.
  induction n as [ | n IH]; intros s acc str r Hn H.
  - destruct s; [discriminate | simpl in Hn; lia].
  - destruct s as [ | c s1]; [discriminate|]. simpl in Hn, H.
    destruct (c =? 34)%N; [injection H as _ <-; simpl; lia|].
    destruct (c <? 32)%N; [discriminate|].
    destruct (c =? 92)%N.
    + destruct s1 as [ | e s2]; [discriminate|]. simpl in Hn.
      assert (Hs2 : forall a, scan_string s2 a = Some (str, r) ->
                              (List.length r < S (S (List.length s2)))%nat).
      { intros a Ha. apply IH in Ha; [lia | lia]. }
      repeat match type of H with
             | (if ?b then _ else _) = _ =>
                 destruct b; [try (apply Hs2 in H; exact H) | ]
             end; try discriminate.
      * destruct s2 as [ | h1 [ | h2 [ | h3 [ | h4 s6]]]]; try discriminate.
        destruct (hex4 h1 h2 h3 h4); [|discriminate].
        apply IH in H; simpl in *; lia.
    + apply IH in H; simpl; lia.
Qed.

Lemma span_digits_app : forall s d r, span_digits s = (d, r) -> s = d ++ r.
Proof.
  induction s as [ | c s IH]; intros d r H; simpl in H.
  - injection H as <- <-. reflexivity.
  - destruct (is_digit c).
    + destruct (span_digits s) as [d' r'] eqn:E. injection H as <- <-.
      simpl. f_equal. apply IH. reflexivity.
    + injection H as <- <-. reflexivity.
Qed.

Lemma scan_number_length : forall s lit r,
  scan_number s = Some (lit, r) -> (List.length r < List.length s)%nat.
Proof.
  intros s lit r H. unfold scan_number in H.
  destruct (match s with
            | [] => ([], s)
            | c :: r0 => if (c =? 45)%N then ([c], r0) else ([], s)
            end) as [sign s1] eqn:Hsign.
  assert (Hs1 : (List.length s1 <= List.length s)%nat).
  { destruct s as [ | c r0]; [injection Hsign as _ <-; lia|].
    destruct (c =? 45)%N; injection Hsign as _ <-; simpl; lia. }
  destruct (span_digits s1) as [int s2] eqn:Hint.
  apply span_digits_app in Hint.
  destruct int as [ | d ds]; [discriminate|].
  assert (Hs2 : (List.length ds + List.length s2 < List.length s)%nat).
  { subst s1. simpl in Hs1. rewrite length_app in Hs1. lia. }
  destruct ((d =? 48)%N && negb match ds with [] => true | _ :: _ => false end).
  - injection H as _ <-. rewrite length_app. lia.
  - destruct (match s2 with
              | [] => ([], s2)
              | c :: r0 =>
                  if (c =? 46)%N
                  then let (f, r') := span_digits r0 in
                       match f with [] => ([], s2) | _ :: _ => (c :: f, r') end
                  else ([], s2)
              end) as [frac s3] eqn:Hfrac.
    assert (Hs3 : (List.length s3 <= List.length s2)%nat).
    { destruct s2 as [ | c r0]; [injection Hfrac as _ <-; lia|].
      destruct (c =? 46)%N; [|injection Hfrac as _ <-; lia].
      destruct (span_digits r0) as [f r'] eqn:Hf. apply span_digits_app in Hf.
      destruct f; injection Hfrac as _ <-; [lia|].
      subst r0. simpl. rewrite length_app. simpl. lia. }
    destruct (match s3 with
              | [] => ([], s3)
              | c :: r0 =>
                  if ((c =? 101) || (c =? 69))%N
                  then
                    let (sg, r1) :=
                      match r0 with
                      | [] => ([], r0)
                      | g :: r' => if ((g =? 43) || (g =? 45))%N then ([g], r') else ([], r0)
                      end in
                    let (e, r2) := span_digits r1 in
                    match e with [] => ([], s3) | _ :: _ => (c :: sg ++ e, r2) end
                  else ([], s3)
              end) as [exp s4] eqn:Hexp.
    assert (Hs4 : (List.length s4 <= List.length s3)%nat).
    { destruct s3 as [ | c r0]; [injection Hexp as _ <-; lia|].
      destruct ((c =? 101) || (c =? 69))%N; [|injection Hexp as _ <-; lia].
      destruct (match r0 with
                | [] => ([], r0)
                | g :: r' => if ((g =? 43) || (g =? 45))%N then ([g], r') else ([], r0)
                end) as [sg r1] eqn:Hsg.
      assert (Hr1 : (List.length r1 <= List.length r0)%nat).
      { destruct r0 as [ | g r']; [injection Hsg as _ <-; lia|].
        destruct ((g =? 43) || (g =? 45))%N; injection Hsg as _ <-; simpl; lia. }
      destruct (span_digits r1) as [e r2] eqn:He. apply span_digits_app in He.
      destruct e; injection Hexp as _ <-; [lia|].
      subst r1. rewrite length_app in Hr1. simpl in *. lia. }
    injection H as _ <-. lia.
Qed.

(** A value that parses leaves less text than it was given. *)
Lemma parse_consumes : forall fuel,
  (forall s v r, parse_value fuel s = POk v r ->
                 (List.length r < List.length s)%nat) /\
  (forall s acc v r, parse_elements fuel s acc = POk v r ->
                     (List.length r < List.length s)%nat) /\
  (forall s acc v r, parse_members fuel s acc = POk v r ->
                     (List.length r < List.length s)%nat).
Proof.
  induction fuel as [ | f (IHv & IHe & IHm)].
  - repeat split; intros; discriminate.
  - split; [|split].
    + intros s v r H. cbn [parse_value parse_elements parse_members] in H.
      destruct (skip_ws s) as [ | c t] eqn:Hs; [discriminate|].
      apply skip_ws_cons in Hs.
      destruct (c =? 123)%N.
      { destruct (skip_ws t) as [ | c' t'] eqn:Ht; [discriminate|].
        apply skip_ws_cons in Ht.
        destruct (c' =? 125)%N; [injection H as _ <-; lia|].
        apply IHm in H. simpl in H. lia. }
      destruct (c =? 91)%N.
      { destruct (skip_ws t) as [ | c' t'] eqn:Ht; [discriminate|].
        apply skip_ws_cons in Ht.
        destruct (c' =? 93)%N; [injection H as _ <-; lia|].
        apply IHe in H. simpl in H. lia. }
      destruct (c =? 34)%N.
      { destruct (scan_string t []) as [[str t'] | ] eqn:Hstr; [|discriminate].
        injection H as _ <-.
        apply scan_string_length with (n := List.length t) in Hstr; lia. }
      destruct (startsWith (c :: t) (js "null")).
      { injection H as _ <-.
        destruct t as [ | ? [ | ? [ | ? ?]]]; simpl in *; lia. }
      destruct (startsWith (c :: t) (js "true")).
      { injection H as _ <-.
        destruct t as [ | ? [ | ? [ | ? ?]]]; simpl in *; lia. }
      destruct (startsWith (c :: t) (js "false")).
      { injection H as _ <-.
        destruct t as [ | ? [ | ? [ | ? [ | ? ?]]]]; simpl in *; lia. }
      destruct (scan_number (c :: t)) as [[lit t'] | ] eqn:Hnum; [|discriminate].
      injection H as _ <-. apply scan_number_length in Hnum. simpl in Hnum. lia.
    + intros s acc v r H. cbn [parse_value parse_elements parse_members] in H.
      destruct (parse_value f s) as [v1 r1 | | ] eqn:Hv; try discriminate.
      apply IHv in Hv.
      destruct (skip_ws r1) as [ | c t] eqn:Hs; [discriminate|].
      apply skip_ws_cons in Hs.
      destruct (c =? 44)%N; [apply IHe in H; lia|].
      destruct (c =? 93)%N; [injection H as _ <-; lia | discriminate].
    + intros s acc v r H. cbn [parse_value parse_elements parse_members] in H.
      destruct (skip_ws s) as [ | q t] eqn:Hs; [discriminate|].
      apply skip_ws_cons in Hs.
      destruct (q =? 34)%N; [|discriminate].
      destruct (scan_string t []) as [[k t1] | ] eqn:Hk; [|discriminate].
      apply scan_string_length with (n := List.length t) in Hk; [|lia].
      destruct (skip_ws t1) as [ | c t2] eqn:Hs1; [discriminate|].
      apply skip_ws_cons in Hs1.
      destruct (c =? 58)%N; [|discriminate].
      destruct (parse_value f t2) as [v1 t3 | | ] eqn:Hv; try discriminate.
      apply IHv in Hv.
      destruct (skip_ws t3) as [ | d t4] eqn:Hs3; [discriminate|].
      apply skip_ws_cons in Hs3.
      destruct (d =? 44)%N; [apply IHm in H; lia|].
      destruct (d =? 125)%N; [injection H as _ <-; lia | discriminate].
Qed.

(** The parser does not run out of fuel when given twice the length of the
    text and a little more: a [Throw] of [JSON_parse] is a syntax error. *)
Lemma parse_fuel_suffices : forall fuel,
  (forall s, (2 * List.length s + 1 <= fuel)%nat -> parse_value fuel s <> PFuel) /\
  (forall s acc, (2 * List.length s + 2 <= fuel)%nat ->
                 parse_elements fuel s acc <> PFuel) /\
  (forall s acc, (2 * List.length s + 2 <= fuel)%nat ->
                 parse_members fuel s acc <> PFuel).
Proof.
  induction fuel as [ | f (IHv & IHe & IHm)].
  - repeat split; intros; lia.
  - destruct (parse_consumes f) as (Cv & Ce & Cm).
    split; [|split].
    + intros s Hf. cbn [parse_value parse_elements parse_members].
      destruct (skip_ws s) as [ | c t] eqn:Hs; [discriminate|].
      apply skip_ws_cons in Hs.
      destruct (c =? 123)%N.
      { destruct (skip_ws t) as [ | c' t'] eqn:Ht; [discriminate|].
        apply skip_ws_cons in Ht.
        destruct (c' =? 125)%N; [discriminate|].
        apply IHm. simpl. lia. }
      destruct (c =? 91)%N.
      { destruct (skip_ws t) as [ | c' t'] eqn:Ht; [discriminate|].
        apply skip_ws_cons in Ht.
        destruct (c' =? 93)%N; [discriminate|].
        apply IHe. simpl. lia. }
      destruct (c =? 34)%N.
      { destruct (scan_string t []) as [[str t'] | ]; discriminate. }
      destruct (startsWith (c :: t) (js "null")); [discriminate|].
      destruct (startsWith (c :: t) (js "true")); [discriminate|].
      destruct (startsWith (c :: t) (js "false")); [discriminate|].
      destruct (scan_number (c :: t)) as [[lit t'] | ]; discriminate.
    + intros s acc Hf. cbn [parse_value parse_elements parse_members].
      destruct (parse_value f s) as [v1 r1 | | ] eqn:Hv; try discriminate.
      * apply Cv in Hv.
        destruct (skip_ws r1) as [ | c t] eqn:Hs; [discriminate|].
        apply skip_ws_cons in Hs.
        destruct (c =? 44)%N; [apply IHe; lia|].
        destruct (c =? 93)%N; discriminate.
      * exfalso. revert Hv. apply IHv. lia.
    + intros s acc Hf. cbn [parse_value parse_elements parse_members].
      destruct (skip_ws s) as [ | q t] eqn:Hs; [discriminate|].
      apply skip_ws_cons in Hs.
      destruct (q =? 34)%N; [|discriminate].
      destruct (scan_string t []) as [[k t1] | ] eqn:Hk; [|discriminate].
      apply scan_string_length with (n := List.length t) in Hk; [|lia].
      destruct (skip_ws t1) as [ | c t2] eqn:Hs1; [discriminate|].
      apply skip_ws_cons in Hs1.
      destruct (c =? 58)%N; [|discriminate].
      destruct (parse_value f t2) as [v1 t3 | | ] eqn:Hv; try discriminate.
      * apply Cv in Hv.
        destruct (skip_ws t3) as [ | d t4] eqn:Hs3; [discriminate|].
        apply skip_ws_cons in Hs3.
        destruct (d =? 44)%N; [apply IHm; lia|].
        destruct (d =? 125)%N; discriminate.
      * exfalso. revert Hv. apply IHv. lia.
Qed.

Lemma JSON_parse_fuel : forall text,
  parse_value (2 * List.length text + 2) text <> PFuel.
Proof.
  intros text.
  destruct (parse_fuel_suffices (2 * List.length text + 2)) as (Hv & _).
  apply Hv. lia.
Qed.

(** [N_toString] prints the decimal digits of its argument. *)
Lemma digits_fuel_value : forall f n acc,
  (n < 2 ^ N.of_nat (S f))%N ->
  decimal_value (digits_fuel (S f) n acc) 0 = decimal_value acc n.
Proof.
  assert (Hlast : forall n acc, (n < 10)%N ->
            decimal_value (digit (n mod 10) :: acc) 0 = decimal_value acc n).
  { intros n acc Hn. cbn [decimal_value]. unfold digit. f_equal.
    rewrite N.mod_small by lia. lia. }
  induction f as [ | f IH]; intros n acc Hn.
  - cbn [digits_fuel]. change (2 ^ N.of_nat 1)%N with 2%N in Hn.
    assert (Hlt : (n <? 10)%N = true) by (apply N.ltb_lt; lia).
    rewrite Hlt. apply Hlast. lia.
  - change (digits_fuel (S (S f)) n acc)
      with (let acc' := digit (n mod 10) :: acc in
            if (n <? 10)%N then acc' else digits_fuel (S f) (n / 10)%N acc').
    cbv zeta. destruct (n <? 10)%N eqn:Hlt.
    + apply N.ltb_lt in Hlt. apply Hlast. exact Hlt.
    + apply N.ltb_ge in Hlt. rewrite IH.
      * cbn [decimal_value]. unfold digit. f_equal.
        pose proof (N.div_mod n 10 ltac:(lia)) as Hdm. clear Hn IH Hlast.
        set (q := (n / 10)%N) in *. set (m := (n mod 10)%N) in *.
        clearbody q m. lia.
      * rewrite Nat2N.inj_succ, N.pow_succ_r' in Hn.
        apply N.Div0.div_lt_upper_bound. lia.
Qed.

Lemma N_toString_value : forall n, decimal_value (N_toString n) 0 = n.
Proof.
  intros n. unfold N_toString. rewrite digits_fuel_value; [reflexivity|].
  rewrite Nat2N.inj_succ, N2Nat.id.
  destruct (N.eq_dec n 0) as [-> | Hne]; [reflexivity|].
  apply N.log2_spec. lia.
Qed.


(** ** Configuration persistence *)

Lemma str_eqb_refl : forall s : jsstring, str_eqb s s = true.
Proof.
  intros s. unfold str_eqb. destruct (list_eq_dec N.eq_dec s s); congruence.
Qed.

Lemma str_eqb_true : forall a b : jsstring, str_eqb a b = true -> a = b.
Proof.
  intros a b. unfold str_eqb.
  destruct (list_eq_dec N.eq_dec a b); [trivial | discriminate].
Qed.

Lemma recognized_some : forall v m,
  recognized v = Some m -> v = Some (JString m) /\ In m MODEL_OPTIONS.
Proof.
  intros v m H. unfold recognized in H.
  destruct v as [[ | | | s | | ] | ]; try discriminate.
  destruct (truthy s && existsb (str_eqb s) MODEL_OPTIONS) eqn:E; [|discriminate].
  injection H as ->. apply andb_prop in E as [_ E].
  apply existsb_exists in E as (x & Hin & Hx).
  apply str_eqb_true in Hx. subst x. auto.
Qed.

Lemma recognized_option : forall m,
  In m MODEL_OPTIONS -> recognized (Some (JString m)) = Some m.
Proof.
  intros m Hin. simpl in Hin.
  destruct Hin as [<- | [<- | []]]; reflexivity.
Qed.

Lemma optional_model_ok : forall parsed, exists v, optional_model parsed = Ok v.
Proof.
  intros parsed. unfold optional_model, get.
  destruct parsed; eauto; destruct (array_index _); eauto;
    destruct (str_eqb _ _); eauto.
Qed.

(** C7: [loadConfig] never throws.  A missing file, an unreadable one and
    malformed JSON give the empty configuration; a model comes back only
    when the file parses to a value whose [model] is one of the two
    recognized identifiers, and then it is that identifier; any other
    [model] value gives the empty configuration. *)
Theorem loadConfig_never_throws : forall (fs : Fs.FS) (configPath : jsstring),
  exists c, loadConfig fs configPath = Ok c /\
    (Fs.entry fs configPath = Fs.Absent -> c = empty_config) /\
    (Fs.entry fs configPath = Fs.Unreadable -> c = empty_config) /\
    (forall raw e, Fs.entry fs configPath = Fs.File raw ->
       JSON_parse raw = Throw e -> c = empty_config) /\
    (forall m, model c = Some m ->
       (m = js "nvidia/parakeet-tdt-0.6b-v3" \/ m = js "openai/whisper-large-v3") /\
       exists raw parsed, Fs.entry fs configPath = Fs.File raw /\
         JSON_parse raw = Ok parsed /\
         optional_model parsed = Ok (Some (JString m))) /\
    (forall raw parsed m, Fs.entry fs configPath = Fs.File raw ->
       JSON_parse raw = Ok parsed ->
       optional_model parsed = Ok (Some (JString m)) ->
       In m MODEL_OPTIONS -> c = mkConfig (Some m)) /\
    (forall raw parsed, Fs.entry fs configPath = Fs.File raw ->
       JSON_parse raw = Ok parsed ->
       (forall m, In m MODEL_OPTIONS ->
          optional_model parsed <> Ok (Some (JString m))) ->
       c = empty_config).
Proof.
  intros fs p. unfold loadConfig, loadConfig_try, Fs.existsSync, Fs.readFileSync.
  destruct (Fs.entry fs p) as [ | | raw] eqn:He; simpl.
  - exists empty_config. repeat split; try discriminate; auto.
  - exists empty_config. repeat split; try discriminate; auto.
  - destruct (JSON_parse raw) as [parsed | e] eqn:Hp; simpl.
    + destruct (optional_model_ok parsed) as [v Hv]. rewrite Hv. simpl.
      destruct (recognized v) as [m | ] eqn:Hr.
      * apply recognized_some in Hr as [-> Hin].
        exists (mkConfig (Some m)).
        split; [reflexivity|].
        split; [discriminate|]. split; [discriminate|].
        split; [intros raw' e' Hf H; injection Hf as <-; rewrite Hp in H; discriminate|].
        split.
        { intros m' Hm'. simpl in Hm'. injection Hm' as <-. split.
          - simpl in Hin. destruct Hin as [<- | [<- | []]]; auto.
          - exists raw, parsed. auto. }
        split.
        { intros raw' parsed' m' Hf Hp' Hv' _. injection Hf as <-.
          rewrite Hp in Hp'. injection Hp' as <-.
          rewrite Hv in Hv'. injection Hv' as <-. reflexivity. }
        intros raw' parsed' Hf Hp' Hnone. injection Hf as <-.
        rewrite Hp in Hp'. injection Hp' as <-.
        exfalso. exact (Hnone m Hin Hv).
      * exists empty_config.
        split; [reflexivity|].
        split; [auto|]. split; [auto|]. split; [auto|].
        split; [intros m Hm; discriminate|].
        split; [|auto].
        intros raw' parsed' m' Hf Hp' Hv' Hin. injection Hf as <-.
        rewrite Hp in Hp'. injection Hp' as <-.
        rewrite Hv in Hv'. injection Hv' as ->.
        rewrite (recognized_option Hin) in Hr. discriminate.
    + exists empty_config. repeat split; try discriminate; auto.
      intros raw' parsed' m' Hf Hp'. injection Hf as <-.
      rewrite Hp in Hp'. discriminate.
Qed.

Lemma loadConfig_never_throws_witness :
  loadConfig (Fs.mkFS (fun _ => Fs.File (jq "{'model': 'bogus'}")) (fun _ => true))
    (js "/cfg.json") = Ok empty_config
  /\ loadConfig (Fs.mkFS (fun _ => Fs.File (jq "{'model': 'openai/whisper-large-v3'}"))
                   (fun _ => true))
       (js "/cfg.json") = Ok (mkConfig (Some (js "openai/whisper-large-v3")))
  /\ loadConfig (Fs.mkFS (fun _ => Fs.File (jq "{'model': ")) (fun _ => true))
       (js "/cfg.json") = Ok empty_config
  /\ loadConfig (Fs.mkFS (fun _ => Fs.Absent) (fun _ => true))
       (js "/cfg.json") = Ok empty_config.
Proof.
  split; [|split; [|split]].
  - destruct (loadConfig_never_throws
                (Fs.mkFS (fun _ => Fs.File (jq "{'model': 'bogus'}")) (fun _ => true))
                (js "/cfg.json")) as (c & Hc & _ & _ & _ & _ & _ & Hother).
    rewrite Hc. f_equal.
    apply (Hother (jq "{'model': 'bogus'}") (JObject [(js "model", JString (js "bogus"))]));
      [reflexivity | vm_compute; reflexivity | ].
    intros m [<- | [<- | []]]; vm_compute; discriminate.
  - destruct (loadConfig_never_throws
                (Fs.mkFS (fun _ => Fs.File (jq "{'model': 'openai/whisper-large-v3'}"))
                   (fun _ => true))
                (js "/cfg.json")) as (c & Hc & _ & _ & _ & _ & Hgood & _).
    rewrite Hc. f_equal.
    apply (Hgood (jq "{'model': 'openai/whisper-large-v3'}")
             (JObject [(js "model", JString (js "openai/whisper-large-v3"))]));
      [reflexivity | vm_compute; reflexivity | vm_compute; reflexivity
      | right; left; reflexivity].
  - destruct (loadConfig_never_throws
                (Fs.mkFS (fun _ => Fs.File (jq "{'model': ")) (fun _ => true))
                (js "/cfg.json")) as (c & Hc & _ & _ & Hbad & _).
    rewrite Hc. f_equal.
    apply (Hbad (jq "{'model': ") (js "SyntaxError")); vm_compute; reflexivity.
  - destruct (loadConfig_never_throws
                (Fs.mkFS (fun _ => Fs.Absent) (fun _ => true))
                (js "/cfg.json")) as (c & Hc & Habs & _).
    rewrite Hc. f_equal. apply Habs. reflexivity.
Defined.

(** C8, as the code has it: when the write succeeds and the file can be
    read back, saving [{ model: M }] for a recognized identifier [M] and
    loading the same path gives back a configuration whose model is [M]. *)
Theorem save_then_load_roundtrip :
  forall (Number_toString : jsstring -> jsstring) (fs : Fs.FS)
         (configPath M : jsstring),
    In M MODEL_OPTIONS ->
    Fs.writable fs configPath = true ->
    Fs.entry fs configPath <> Fs.Unreadable ->
    loadConfig (saveConfig Number_toString fs (mkConfig (Some M)) configPath)
      configPath = Ok (mkConfig (Some M)).
Proof.
  intros ntos fs p M Hin Hw Hr.
  unfold saveConfig, Fs.writeFileSync. rewrite Hw.
  unfold loadConfig, loadConfig_try, Fs.existsSync, Fs.readFileSync. simpl Fs.entry.
  rewrite str_eqb_refl.
  simpl in Hin.
  destruct (Fs.entry fs p); [ | congruence | ];
    destruct Hin as [<- | [<- | []]]; vm_compute; reflexivity.
Qed.

Lemma save_then_load_roundtrip_witness :
  loadConfig
    (saveConfig (fun lit => lit) (Fs.mkFS (fun _ => Fs.Absent) (fun _ => true))
       (mkConfig (Some (js "nvidia/parakeet-tdt-0.6b-v3"))) (js "/cfg.json"))
    (js "/cfg.json") = Ok (mkConfig (Some (js "nvidia/parakeet-tdt-0.6b-v3"))).
Proof.
  apply save_then_load_roundtrip; [left; reflexivity | reflexivity | discriminate].
Defined.

(** C8 as stated fails where the write fails: [saveConfig] swallows the
    error, the file stays missing, and [loadConfig] gives the empty
    configuration. *)
Lemma save_then_load_unwritable :
  ~ (forall (Number_toString : jsstring -> jsstring) (fs : Fs.FS)
            (configPath M : jsstring),
       In M MODEL_OPTIONS ->
       loadConfig (saveConfig Number_toString fs (mkConfig (Some M)) configPath)
         configPath = Ok (mkConfig (Some M))).
Proof.
  intros H.
  specialize (H (fun lit => lit) (Fs.mkFS (fun _ => Fs.Absent) (fun _ => false))
                (js "/cfg.json") (js "openai/whisper-large-v3")
                (or_intror (or_introl eq_refl))).
  vm_compute in H. discriminate H.
Qed.

(** ** File-ready waiter *)

Section WaiterFacts.
Import Waiter.

Variable w : World.
Variable filePath : jsstring.
Variable timeoutMs : Z.

(** The clock has not run backwards between the reading of [start] and the
    first test, and it has moved on when a 100 ms timer has fired (a timer
    may fire a little early or much too late). *)
Hypothesis first_test_after_start : (0 <= late w 0)%Z.
Hypothesis timers_make_progress : forall k, (-100 < late w (S k))%Z.

Lemma elapsed_at_step : forall k, (elapsed_at w k < elapsed_at w (S k))%Z.
Proof.
  intros k. simpl. specialize (timers_make_progress k). lia.
Qed.

Lemma elapsed_at_mono : forall j k, (k <= j)%nat -> (elapsed_at w k <= elapsed_at w j)%Z.
Proof.
  intros j k Hle. induction Hle as [ | j Hle IH]; [lia|].
  pose proof (elapsed_at_step j). lia.
Qed.

(** More fuel does not change an answer. *)
Lemma loop_fuel_mono : forall fuel extra k e r,
  loop fuel w filePath timeoutMs k e = Some r ->
  loop (fuel + extra) w filePath timeoutMs k e = Some r.
Proof.
  induction fuel as [ | f IH]; intros extra k e r H; [discriminate|].
  simpl in H |- *.
  destruct (e <? timeoutMs)%Z; [|exact H].
  destruct (loop f w filePath timeoutMs (S k) (e + 100 + late w (S k))%Z)
    as [[r' tr'] | ] eqn:Hrec.
  - rewrite (IH extra _ _ _ Hrec). exact H.
  - destruct (existsSync (probe w k)); [|discriminate].
    destruct (statSync (probe w k)) as [size | ]; [|discriminate].
    destruct (0 <? size)%N; [exact H | discriminate].
Qed.

(** The loop from test [k] on: it answers within the fuel, never throws,
    answers [true] exactly when some poll from [k] on happens before the
    timeout and finds the file ready, and only ever sleeps 100 ms. *)
Lemma loop_outcome : forall fuel k,
  (timeoutMs - elapsed_at w k <= Z.of_nat fuel)%Z ->
  exists b tr,
    loop (S fuel) w filePath timeoutMs k (elapsed_at w k) = Some (Ok b, tr) /\
    (b = true <->
     exists j, (k <= j)%nat /\ (elapsed_at w j < timeoutMs)%Z /\
               ready (probe w j) = true) /\
    (forall ms, In (setTimeout_call ms) tr -> ms = 100%Z).
Proof.
  induction fuel as [ | f IH]; intros k Hfuel.
  - exists false, []. simpl.
    destruct (elapsed_at w k <? timeoutMs)%Z eqn:Ht; [apply Z.ltb_lt in Ht; simpl in Hfuel; lia|].
    split; [reflexivity|]. split; [|intros ms []].
    split; [discriminate|]. intros (j & Hj & Hlt & _).
    apply Z.ltb_ge in Ht. pose proof (elapsed_at_mono Hj). lia.
  - change (loop (S (S f)) w filePath timeoutMs k (elapsed_at w k))
      with (if (elapsed_at w k <? timeoutMs)%Z then
              let next (seen : list Event) :=
                match loop (S f) w filePath timeoutMs (S k)
                        (elapsed_at w k + 100 + late w (S k))%Z with
                | Some (r, tr) => Some (r, seen ++ setTimeout_call 100 :: tr)
                | None => None
                end in
              if existsSync (probe w k) then
                match statSync (probe w k) with
                | Ok size =>
                    if (0 <? size)%N
                    then Some (Ok true, [existsSync_call filePath; statSync_call filePath])
                    else next [existsSync_call filePath; statSync_call filePath]
                | Throw _ => next [existsSync_call filePath; statSync_call filePath]
                end
              else next [existsSync_call filePath]
            else Some (Ok false, [])).
    destruct (elapsed_at w k <? timeoutMs)%Z eqn:Ht.
    + apply Z.ltb_lt in Ht.
      destruct (IH (S k)) as (b & tr & Hrec & Hb & Htr).
      { pose proof (elapsed_at_step k). lia. }
      change (elapsed_at w (S k)) with (elapsed_at w k + 100 + late w (S k))%Z in Hrec.
      cbv zeta. rewrite Hrec.
      assert (Hnot : ready (probe w k) = false ->
                (b = true <->
                 exists j, (k <= j)%nat /\ (elapsed_at w j < timeoutMs)%Z /\
                           ready (probe w j) = true)).
      { intros Hk. rewrite Hb. split.
        - intros (j & Hj & H). exists j. split; [lia | exact H].
        - intros (j & Hj & Hlt & Hr). exists j. split; [|auto].
          destruct (Nat.eq_dec j k) as [-> | Hne]; [congruence | lia]. }
      assert (Hsleep : forall seen,
                (forall ms, ~ In (setTimeout_call ms) seen) ->
                forall ms, In (setTimeout_call ms) (seen ++ setTimeout_call 100 :: tr) ->
                           ms = 100%Z).
      { intros seen Hseen ms Hin. apply in_app_or in Hin as [Hin | [Hin | Hin]].
        - destruct (Hseen ms Hin).
        - congruence.
        - auto. }
      destruct (probe w k) as [ | | size] eqn:Hp; simpl.
      * exists b, ([existsSync_call filePath] ++ setTimeout_call 100 :: tr).
        split; [reflexivity|]. split; [apply Hnot; reflexivity|].
        apply Hsleep. intros ms [H | []]; discriminate.
      * exists b, ([existsSync_call filePath; statSync_call filePath]
                   ++ setTimeout_call 100 :: tr).
        split; [reflexivity|]. split; [apply Hnot; reflexivity|].
        apply Hsleep. intros ms [H | [H | []]]; discriminate.
      * destruct (0 <? size)%N eqn:Hs.
        -- exists true, [existsSync_call filePath; statSync_call filePath].
           split; [reflexivity|]. split.
           ++ split; [|reflexivity]. intros _. exists k.
              split; [lia|]. split; [exact Ht|]. rewrite Hp. exact Hs.
           ++ intros ms [H | [H | []]]; discriminate.
        -- exists b, ([existsSync_call filePath; statSync_call filePath]
                      ++ setTimeout_call 100 :: tr).
           split; [reflexivity|]. split; [apply Hnot; exact Hs|].
           apply Hsleep. intros ms [H | [H | []]]; discriminate.
    + exists false, []. split; [reflexivity|]. split; [|intros ms []].
      split; [discriminate|]. intros (j & Hj & Hlt & _).
      apply Z.ltb_ge in Ht. pose proof (elapsed_at_mono Hj). lia.
Qed.

(** The call as a whole: it returns with the fuel [enough timeoutMs] and
    with any more, never throws, and returns [true] exactly when some poll
    that happens before the timeout finds the file ready. *)
Lemma waitForFile_outcome :
  exists b tr,
    (forall extra, waitForFile (enough timeoutMs + extra) w filePath timeoutMs
                   = Some (Ok b, tr)) /\
    (b = true <->
     exists k, (elapsed_at w k < timeoutMs)%Z /\ ready (probe w k) = true) /\
    (b = false <->
     forall k, (elapsed_at w k < timeoutMs)%Z -> ready (probe w k) = false) /\
    (forall ms, In (setTimeout_call ms) tr -> ms = 100%Z).
Proof.
  destruct (@loop_outcome (Z.to_nat timeoutMs) 0%nat) as (b & tr & Hrun & Hb & Htr).
  { simpl. lia. }
  assert (Hb' : b = true <->
            exists k, (elapsed_at w k < timeoutMs)%Z /\ ready (probe w k) = true).
  { rewrite Hb. split.
    - intros (j & _ & H). exists j. exact H.
    - intros (j & H). exists j. split; [lia | exact H]. }
  exists b, tr. split; [|split; [exact Hb'|split; [|exact Htr]]].
  - intros extra. unfold waitForFile, enough. apply loop_fuel_mono. exact Hrun.
  - split.
    + intros -> k Hk. destruct (ready (probe w k)) eqn:Hr; [|reflexivity].
      assert (false = true) by (apply Hb'; eauto). discriminate.
    + intros Hall. destruct b; [|reflexivity].
      destruct (proj1 Hb' eq_refl) as (k & Hk & Hr).
      rewrite (Hall k Hk) in Hr. discriminate.
Qed.

(** C10: with a timeout that is zero or negative the first loop test
    already fails: the result is [false] and no existence or size check
    is made, whatever the file system holds. *)
Theorem waitForFile_nonpositive_timeout : forall fuel,
  (timeoutMs <= 0)%Z ->
  waitForFile (S fuel) w filePath timeoutMs = Some (Ok false, []).
Proof.
  intros fuel Ht. unfold waitForFile. simpl.
  destruct (late w 0 <? timeoutMs)%Z eqn:E; [apply Z.ltb_lt in E; lia | reflexivity].
Qed.

End WaiterFacts.

Lemma waitForFile_nonpositive_timeout_witness :
  Waiter.waitForFile 1
    (Waiter.mkWorld (fun _ => 0%Z) (fun _ => Waiter.Size 44))
    (js "/tmp/audio.wav") 0
  = Some (Ok false, []).
Proof.
  apply waitForFile_nonpositive_timeout; simpl; lia.
Defined.

(** ** Transcription client *)

Section TranscribeFacts.
Import Transcribe.

Variable Number_toString : jsstring -> jsstring.
Variable env : Env.
Variable params : Params.

(** C2: when the effective API key (the parameter, else VENICE_API_KEY of
    the environment) is absent, empty, or white space only, the call
    fails with "VENICE_API_KEY is not set" and has made no access at all:
    the file is not read and the transport is not called. *)
Theorem transcribeFile_missing_key :
  (effective_apiKey env params = None \/
   exists k, effective_apiKey env params = Some k /\ trim k = []) ->
  transcribeFile Number_toString env params
  = (Throw (js "VENICE_API_KEY is not set"), []).
Proof.
  intros H. unfold transcribeFile.
  assert (Hmiss : key_missing (effective_apiKey env params) = true).
  { destruct H as [-> | (k & -> & Hk)]; [reflexivity|].
    simpl. rewrite Hk. simpl. apply orb_true_r. }
  rewrite Hmiss. reflexivity.
Qed.

(** The call up to the transport's answer, for a usable key and a
    readable file. *)
Lemma transcribeFile_reaches_transport : forall key buf res,
  effective_apiKey env params = Some key ->
  key_missing (Some key) = false ->
  readFileSync env (filePath params) = Ok buf ->
  fetchImpl params (build_request env params key buf) = Ok res ->
  transcribeFile Number_toString env params
  = (handle_response Number_toString res,
     [read_file (filePath params);
      fetch_call (build_request env params key buf)]).
Proof.
  intros key buf res Hkey Hok Hread Hfetch.
  unfold transcribeFile. rewrite Hkey, Hok, Hread, Hfetch. reflexivity.
Qed.

(** C3: when the transport answers with a non-success response of status
    S, status text T and body B, the call fails with the message
    S, a space, T, a colon, a space, B. *)
Theorem transcribeFile_http_error : forall key buf res B,
  effective_apiKey env params = Some key ->
  key_missing (Some key) = false ->
  readFileSync env (filePath params) = Ok buf ->
  fetchImpl params (build_request env params key buf) = Ok res ->
  ok res = false ->
  text res = Ok B ->
  fst (transcribeFile Number_toString env params)
  = Throw (N_toString (status res) ++ js " " ++ statusText res ++ js ": " ++ B).
Proof.
  intros key buf res B Hkey Hok Hread Hfetch Hno Htext.
  rewrite (transcribeFile_reaches_transport Hkey Hok Hread Hfetch).
  unfold handle_response. rewrite Hno, Htext. reflexivity.
Qed.

(** A property read throws on [null] only. *)
Lemma get_not_null : forall data k,
  data <> JNull -> exists v, get data k = Ok v.
Proof.
  intros data k Hnn. unfold get.
  destruct data; try congruence; eauto;
    destruct (array_index k); eauto; destruct (str_eqb k _); eauto.
Qed.

(** C4, as the code has it: for a successful response, when the content
    type contains "application/json" and the body parses to a value other
    than [null], the result is its string-typed [text], else its
    string-typed [transcription], else the value re-serialized; when the
    body does not parse, or parses to [null], or the content type does not
    contain "application/json", the result is the body as received. *)
Theorem transcribeFile_success_body : forall key buf res body,
  effective_apiKey env params = Some key ->
  key_missing (Some key) = false ->
  readFileSync env (filePath params) = Ok buf ->
  fetchImpl params (build_request env params key buf) = Ok res ->
  ok res = true ->
  text res = Ok body ->
  let result := fst (transcribeFile Number_toString env params) in
  (includes (ctype_of res) (js "application/json") = false -> result = Ok body) /\
  (includes (ctype_of res) (js "application/json") = true ->
     (forall e, JSON_parse body = Throw e -> result = Ok body) /\
     (JSON_parse body = Ok JNull -> result = Ok body) /\
     (forall data, JSON_parse body = Ok data -> data <> JNull ->
        exists t u,
          get data (js "text") = Ok t /\
          get data (js "transcription") = Ok u /\
          result = Ok match as_string t, as_string u with
                      | Some s, _ => s
                      | None, Some s => s
                      | None, None => JSON_stringify Number_toString data 0
                      end)).
Proof.
  intros key buf res body Hkey Hok Hread Hfetch Hyes Htext result.
  subst result.
  rewrite (transcribeFile_reaches_transport Hkey Hok Hread Hfetch).
  unfold handle_response. rewrite Hyes, Htext. simpl.
  split.
  - intros ->. reflexivity.
  - intros ->. unfold extract_text. split; [|split].
    + intros e ->. reflexivity.
    + intros ->. reflexivity.
    + intros data -> Hnn. simpl.
      destruct (get_not_null (js "text") Hnn) as [t Ht].
      destruct (get_not_null (js "transcription") Hnn) as [u Hu].
      exists t, u. rewrite Ht, Hu. simpl.
      split; [reflexivity|]. split; [reflexivity|].
      destruct (as_string t); [reflexivity|].
      destruct (as_string u); reflexivity.
Qed.

End TranscribeFacts.

Lemma transcribeFile_missing_key_witness :
  Transcribe.transcribeFile (fun lit => lit) test_env
    (test_params (Transcribe.mkResponse true 200 (js "OK") None (Ok (js "hi")))
       (Some (js "  ")))
  = (Throw (js "VENICE_API_KEY is not set"), []).
Proof.
  apply transcribeFile_missing_key.
  right. exists (js "  "). split; reflexivity.
Defined.

Lemma transcribeFile_http_error_witness :
  fst (Transcribe.transcribeFile (fun lit => lit) test_env
         (test_params
            (Transcribe.mkResponse false 401 (js "Unauthorized")
               (Some (js "text/plain")) (Ok (js "bad key")))
            (Some (js "key"))))
  = Throw (js "401 Unauthorized: bad key").
Proof.
  apply (@transcribeFile_http_error (fun lit => lit) test_env
           (test_params
              (Transcribe.mkResponse false 401 (js "Unauthorized")
                 (Some (js "text/plain")) (Ok (js "bad key")))
              (Some (js "key")))
           (js "key") [120%N]
           (Transcribe.mkResponse false 401 (js "Unauthorized")
              (Some (js "text/plain")) (Ok (js "bad key")))
           (js "bad key")); reflexivity.
Defined.

Lemma transcribeFile_success_body_witness :
  fst (Transcribe.transcribeFile (fun lit => lit) test_env
         (test_params
            (Transcribe.mkResponse true 200 (js "OK")
               (Some (js "application/json; charset=utf-8"))
               (Ok (jq "{'transcription': 'hola', 'text': 7}")))
            (Some (js "key"))))
  = Ok (js "hola").
Proof.
  destruct (@transcribeFile_success_body (fun lit => lit) test_env
              (test_params
                 (Transcribe.mkResponse true 200 (js "OK")
                    (Some (js "application/json; charset=utf-8"))
                    (Ok (jq "{'transcription': 'hola', 'text': 7}")))
                 (Some (js "key")))
              (js "key") [120%N]
              (Transcribe.mkResponse true 200 (js "OK")
                 (Some (js "application/json; charset=utf-8"))
                 (Ok (jq "{'transcription': 'hola', 'text': 7}")))
              (jq "{'transcription': 'hola', 'text': 7}")
              eq_refl eq_refl eq_refl eq_refl eq_refl eq_refl) as [_ Hjson].
  destruct (Hjson eq_refl) as (_ & _ & Hdata).
  destruct (Hdata (JObject [(js "transcription", JString (js "hola"));
                            (js "text", JNumber (js "7"))]))
    as (t & u & Ht & Hu & Hres).
  - vm_compute. reflexivity.
  - discriminate.
  - rewrite Hres. vm_compute in Ht, Hu.
    injection Ht as <-. injection Hu as <-. reflexivity.
Defined.

(** C4 as stated fails on a body that parses to [null]: reading [text] of
    [null] throws inside the [try], so the body comes back as received,
    white space included, not re-serialized. *)
Lemma transcribeFile_null_body_not_reserialized :
  let res := Transcribe.mkResponse true 200 (js "OK")
               (Some (js "application/json")) (Ok (js " null")) in
  includes (Transcribe.ctype_of res) (js "application/json") = true /\
  JSON_parse (js " null") = Ok JNull /\
  JSON_stringify (fun lit => lit) JNull 0 = js "null" /\
  fst (Transcribe.transcribeFile (fun lit => lit) test_env
         (test_params res (Some (js "key")))) = Ok (js " null") /\
  fst (Transcribe.transcribeFile (fun lit => lit) test_env
         (test_params res (Some (js "key"))))
  <> Ok (JSON_stringify (fun lit => lit) JNull 0).
Proof.
  repeat split; try (vm_compute; reflexivity).
  vm_compute. discriminate.
Qed.

(** ** Orchestration *)

Section OrchestrationFacts.
Import Orchestration.

Variable Number_toString : jsstring -> jsstring.
Variable homedir : jsstring.

Lemma run_reachable : forall fs0 labels s s',
  reachable Number_toString homedir fs0 s ->
  run Number_toString homedir labels s = Some s' ->
  reachable Number_toString homedir fs0 s'.
Proof.
  intros fs0 labels. induction labels as [ | l rest IH]; intros s s' Hs Hrun.
  - injection Hrun as <-. exact Hs.
  - simpl in Hrun.
    destruct (step Number_toString homedir l s) as [[s1 eff] | ] eqn:Hstep;
      [|discriminate].
    eapply IH; [|exact Hrun]. eapply reachable_step; eauto.
Qed.

Lemma startRecording_blocked : forall ctx s,
  start_blocked (closure s) = true -> startRecording ctx s = (s, []).
Proof.
  intros ctx s H. unfold startRecording. rewrite H. reflexivity.
Qed.

Lemma startRecording_proceeds : forall ctx s,
  start_blocked (closure s) = false ->
  fst (startRecording ctx s)
  = suspend (start_awaits_ffmpeg ctx (ffmpegAvailable (closure s))) s.
Proof.
  intros ctx s H. unfold startRecording. rewrite H.
  destruct (ffmpegAvailable (closure s)); reflexivity.
Qed.

(** The exit of the process that [recording] refers to clears the
    reference and the status line; [startRecording] then passes its guard
    as soon as [transcribing] is down. *)
Lemma session_exit_clears : forall s r exitCode,
  recording (closure s) = Some r ->
  procs s (proc r) = Running ->
  exists s',
    step Number_toString homedir (proc_exit (proc r) exitCode) s
    = Some (s', [setStatus STATUS_KEY []]) /\
    recording (closure s') = None /\
    transcribing (closure s') = transcribing (closure s) /\
    (transcribing (closure s) = false ->
     forall ctx,
       fst (startRecording ctx s')
       = suspend (start_awaits_ffmpeg ctx (ffmpegAvailable (closure s'))) s').
Proof.
  intros s r exitCode Hr Hrun.
  set (c := closure s).
  set (s' := mkSystem
               (mkClosure None (transcribing c) (ffmpegAvailable c)
                  (preferredInput c) (preferredModel c))
               (fun q => if Nat.eqb q (proc r) then Exited exitCode else procs s q)
               (spawned s) (pending s) (fs s)).
  exists s'. split.
  { simpl. rewrite Hrun. unfold on_exit. rewrite Hr, Nat.eqb_refl. reflexivity. }
  split; [reflexivity|]. split; [reflexivity|].
  intros Ht ctx. apply startRecording_proceeds.
  unfold start_blocked, s', c. simpl. exact Ht.
Qed.

(** C9, as the code has it: without a UI the command answers with the
    notification "voice requires interactive mode" and the shortcut
    returns without a word; neither changes the state, suspends a task,
    or touches a process. *)
Theorem toggle_rejected_without_ui : forall args ctx h s,
  hasUI ctx = false ->
  command_handler args ctx h s
  = (s, [notify (js "voice requires interactive mode") (js "error")]) /\
  shortcut_handler ctx h s = (s, []).
Proof.
  intros args ctx h s Hui. unfold command_handler, shortcut_handler.
  rewrite Hui. split; reflexivity.
Qed.

End OrchestrationFacts.

(** C6: the code does not keep the invariant.  The guard of
    [startRecording] is tested before its awaits, and [recording] is
    assigned after them.  Two presses of the shortcut on first use, the
    second while the first call awaits [which ffmpeg], both pass the guard
    and both spawn ffmpeg: processes 0 and 1 run, no stop has been asked
    for, and [recording] refers to process 1 alone.  The next press
    signals process 1 only; after it nothing refers to process 0, which
    still runs, and [session_shutdown] signals nothing.  And when two
    calls of [stopRecording] overlap, the [finally] of the first lowers
    [transcribing] while the second still awaits its transcription: a
    start then passes the guard with a transcription in flight. *)
Theorem overlapping_starts_run_two_captures :
  let ctx := Orchestration.mkCtx true in
  (exists s,
     Orchestration.run (fun lit => lit) (js "/home/u") overlapping_starts
       (Orchestration.initial_system test_fs) = Some s /\
     Orchestration.running_processes s = [0; 1]%nat /\
     Orchestration.pending s
     = [Orchestration.early_exit_check ctx 0 (js ":0") (js "/tmp/pi-voice-a1/ffmpeg.log");
        Orchestration.early_exit_check ctx 1 (js ":0") (js "/tmp/pi-voice-c3/ffmpeg.log")] /\
     Orchestration.recording (Orchestration.closure s) = Some second_session /\
     exists s' eff,
       Orchestration.step (fun lit => lit) (js "/home/u")
         (Orchestration.shortcut ctx test_host) s = Some (s', eff) /\
       signals eff = [Orchestration.kill 1 (js "SIGINT")] /\
       Orchestration.procs s' 0 = Orchestration.Running /\
       Orchestration.recording (Orchestration.closure s') = None /\
       Orchestration.on_session_shutdown s' = (s', [])) /\
  (exists s,
     Orchestration.run (fun lit => lit) (js "/home/u") overlapping_stops
       (Orchestration.initial_system test_fs) = Some s /\
     In (Orchestration.stop_awaits_outcome ctx second_session)
        (Orchestration.pending s) /\
     Orchestration.start_blocked (Orchestration.closure s) = false /\
     Orchestration.startRecording ctx s
     = (Orchestration.suspend
          (Orchestration.start_awaits_ffmpeg ctx (Some true)) s, [])).
Proof.
  split.
  - eexists. split; [vm_compute; reflexivity|].
    split; [vm_compute; reflexivity|].
    split; [vm_compute; reflexivity|].
    split; [vm_compute; reflexivity|].
    eexists. eexists. split; [vm_compute; reflexivity|].
    repeat split; vm_compute; reflexivity.
  - eexists. split; [vm_compute; reflexivity|].
    split; [vm_compute; tauto|].
    split; vm_compute; reflexivity.
Qed.

Lemma toggle_rejected_without_ui_witness :
  Orchestration.command_handler None (Orchestration.mkCtx false) test_host
    recording_system
  = (recording_system,
     [Orchestration.notify (js "voice requires interactive mode") (js "error")]) /\
  Orchestration.shortcut_handler (Orchestration.mkCtx false) test_host
    recording_system
  = (recording_system, []).
Proof.
  apply toggle_rejected_without_ui. reflexivity.
Defined.

(** C9 as stated fails for the shortcut: without a UI its handler returns
    at once and notifies nothing. *)
Lemma shortcut_rejects_silently :
  ~ (forall ctx h s,
       Orchestration.hasUI ctx = false ->
       exists message level,
         In (Orchestration.notify message level)
            (snd (Orchestration.shortcut_handler ctx h s))).
Proof.
  intros H.
  destruct (H (Orchestration.mkCtx false) test_host
              (Orchestration.initial_system test_fs) eq_refl)
    as (message & level & Hin).
  exact Hin.
Qed.

(** * Further properties *)

(** ** Transcription client: failures, precedence, single attempt *)

Section TranscribeMore.
Import Transcribe.

Variable Number_toString : jsstring -> jsstring.
Variable env : Env.
Variable params : Params.

Lemma key_usable : forall k, trim k <> [] -> key_missing (Some k) = false.
Proof.
  intros k Hk. unfold key_missing.
  destruct k as [ | c r]; [elim Hk; reflexivity|]. simpl truthy. simpl negb.
  unfold str_eqb. destruct (list_eq_dec N.eq_dec (trim (c :: r)) []); [contradiction | reflexivity].
Qed.

Lemma key_missing_false : forall k,
  key_missing (Some k) = false -> trim k <> [].
Proof.
  intros k H Ht. unfold key_missing in H. rewrite Ht in H.
  rewrite orb_true_r in H. discriminate.
Qed.

(** X1: with a usable key, a file that cannot be read makes the call fail
    with the error of the read, and the transport is not called. *)
Theorem transcribeFile_unreadable_file : forall key e,
  effective_apiKey env params = Some key ->
  trim key <> [] ->
  readFileSync env (filePath params) = Throw e ->
  transcribeFile Number_toString env params
  = (Throw e, [read_file (filePath params)]).
Proof.
  intros key e Hkey Hk Hread. unfold transcribeFile.
  rewrite Hkey, (@key_usable key Hk), Hread. reflexivity.
Qed.

(** X2: the transport is called exactly when the key is usable and the
    file can be read, and then once, right after the one read of the
    file: there is no second attempt. *)
Theorem transcribeFile_single_attempt :
  let tr := snd (transcribeFile Number_toString env params) in
  ((exists req, In (fetch_call req) tr) <->
   (exists key buf, effective_apiKey env params = Some key /\ trim key <> [] /\
                    readFileSync env (filePath params) = Ok buf)) /\
  (forall req, In (fetch_call req) tr ->
     tr = [read_file (filePath params); fetch_call req]).
Proof.
  cbv zeta. unfold transcribeFile.
  destruct (effective_apiKey env params) as [key | ] eqn:Hkey.
  - destruct (key_missing (Some key)) eqn:Hm.
    + simpl. split.
      * split; [intros (req & []) | ].
        intros (key' & buf & Hk' & Ht & _). injection Hk' as <-.
        rewrite (@key_usable _ Ht) in Hm. discriminate.
      * intros req [].
    + apply key_missing_false in Hm.
      destruct (readFileSync env (filePath params)) as [buf | e] eqn:Hread.
      * assert (Htr : forall r,
                  snd (match fetchImpl params (build_request env params key buf) with
                       | Ok res => (handle_response Number_toString res,
                                    [read_file (filePath params);
                                     fetch_call (build_request env params key buf)])
                       | Throw e => (r e,
                                     [read_file (filePath params);
                                      fetch_call (build_request env params key buf)])
                       end)
                  = [read_file (filePath params);
                     fetch_call (build_request env params key buf)]).
        { intros r. destruct (fetchImpl params _); reflexivity. }
        rewrite (Htr (fun e => Throw e)). split.
        -- split; [intros _; exists key, buf; auto | ].
           intros _. eexists. right. left. reflexivity.
        -- intros req [H | [H | []]]; [discriminate | injection H as <-; reflexivity].
      * simpl. split.
        -- split; [intros (req & [H | []]); discriminate | ].
           intros (key' & buf & _ & _ & H). discriminate.
        -- intros req [H | []]. discriminate.
  - simpl. split.
    + split; [intros (req & []) | intros (key & buf & H & _); discriminate].
    + intros req [].
Qed.

(** X3: what the transport rejects with, and what reading the body of its
    response rejects with, is what the call fails with, for a success
    status as for an error status. *)
Theorem transcribeFile_transport_failure : forall key buf,
  effective_apiKey env params = Some key ->
  trim key <> [] ->
  readFileSync env (filePath params) = Ok buf ->
  (forall e, fetchImpl params (build_request env params key buf) = Throw e ->
             fst (transcribeFile Number_toString env params) = Throw e) /\
  (forall res e, fetchImpl params (build_request env params key buf) = Ok res ->
                 text res = Throw e ->
                 fst (transcribeFile Number_toString env params) = Throw e).
Proof.
  intros key buf Hkey Hk Hread. unfold transcribeFile.
  rewrite Hkey, (@key_usable key Hk), Hread. split.
  - intros e ->. reflexivity.
  - intros res e -> Ht. simpl. unfold handle_response. rewrite Ht.
    destruct (negb (ok res)); reflexivity.
Qed.

(** X4: a key passed in the parameters takes precedence over
    VENICE_API_KEY.  A blank one is not replaced by the environment's key:
    the call fails without any access.  A usable one is the bearer token of
    the request. *)
Theorem explicit_key_takes_precedence : forall k,
  apiKey params = Some k ->
  (trim k = [] ->
   transcribeFile Number_toString env params
   = (Throw (js "VENICE_API_KEY is not set"), [])) /\
  (trim k <> [] ->
   forall buf, readFileSync env (filePath params) = Ok buf ->
     exists req,
       snd (transcribeFile Number_toString env params)
       = [read_file (filePath params); fetch_call req] /\
       Authorization req = js "Bearer " ++ k).
Proof.
  intros k Hk.
  assert (Heff : effective_apiKey env params = Some k).
  { unfold effective_apiKey. rewrite Hk. reflexivity. }
  split.
  - intros Ht. unfold transcribeFile. rewrite Heff. unfold key_missing.
    rewrite Ht. cbn [str_eqb]. rewrite str_eqb_refl, orb_true_r. reflexivity.
  - intros Ht buf Hread. exists (build_request env params k buf).
    split; [|reflexivity].
    unfold transcribeFile. rewrite Heff, (@key_usable _ Ht), Hread.
    destruct (fetchImpl params _); reflexivity.
Qed.

(** X5: once the transport has answered and the body has been read, the
    status alone decides between success and failure: a success status
    never fails, whatever the content type and the body (malformed JSON
    included), and an error status never succeeds. *)
Theorem status_decides_outcome : forall res body,
  text res = Ok body ->
  (ok res = true -> exists s, handle_response Number_toString res = Ok s) /\
  (ok res = false -> exists m, handle_response Number_toString res = Throw m).
Proof.
  intros res body Ht. unfold handle_response. rewrite Ht. split; intros ->; simpl.
  - destruct (includes (ctype_of res) (js "application/json")); [|eauto].
    destruct (extract_text Number_toString body); eauto.
  - eauto.
Qed.

End TranscribeMore.

(** ** Strings and paths *)

Lemma trimStart_suffix : forall s, exists p, s = p ++ trimStart s.
Proof.
  induction s as [ | c r [p Hp]]; [exists []; reflexivity|]. simpl.
  destruct (is_whitespace c); [exists (c :: p); simpl; congruence | exists []; reflexivity].
Qed.

Lemma trimStart_head : forall s c,
  hd_error (trimStart s) = Some c -> is_whitespace c = false.
Proof.
  induction s as [ | a r IH]; intros c H; [discriminate|]. simpl in H.
  destruct (is_whitespace a) eqn:Ha; [auto|]. injection H as <-. exact Ha.
Qed.

Lemma trimEnd_prefix : forall s, exists q, s = trimEnd s ++ q.
Proof.
  intros s. unfold trimEnd. destruct (trimStart_suffix (rev s)) as [p Hp].
  exists (rev p). rewrite <- rev_app_distr, <- Hp, rev_involutive. reflexivity.
Qed.

(** What [trim] returns neither begins nor ends with white space. *)
Lemma trim_ends : forall s c,
  (hd_error (trim s) = Some c -> is_whitespace c = false) /\
  (hd_error (rev (trim s)) = Some c -> is_whitespace c = false).
Proof.
  intros s c. unfold trim. split.
  - intros H. destruct (trimEnd_prefix (trimStart s)) as [q Hq].
    apply (trimStart_head s). rewrite Hq.
    destruct (trimEnd (trimStart s)); [discriminate | exact H].
  - unfold trimEnd. rewrite rev_involutive. apply trimStart_head.
Qed.

Lemma last_segment_after_slash : forall dir name acc,
  Transcribe.last_segment (dir ++ 47%N :: name) acc = Transcribe.last_segment name [].
Proof.
  induction dir as [ | c dir IH]; intros name acc; simpl.
  - reflexivity.
  - destruct (c =? 47)%N; apply IH.
Qed.

Lemma last_segment_plain : forall name acc,
  (forall c, In c name -> c <> 47%N) ->
  Transcribe.last_segment name acc = rev acc ++ name.
Proof.
  induction name as [ | c name IH]; intros acc H; simpl.
  - rewrite app_nil_r. reflexivity.
  - destruct (c =? 47)%N eqn:E.
    + apply N.eqb_eq in E. elim (H c); [left; reflexivity | exact E].
    + rewrite IH by (intros d Hd; apply H; right; exact Hd).
      simpl. rewrite <- app_assoc. reflexivity.
Qed.

(** The base name of a file in a directory is the name of the file. *)
Lemma basename_in_directory : forall dir name,
  name <> [] ->
  (forall c, In c name -> c <> 47%N) ->
  Transcribe.basename (dir ++ 47%N :: name) = name.
Proof.
  intros dir name Hne Hplain. unfold Transcribe.basename.
  assert (Hkeep : Transcribe.drop_slashes (rev (dir ++ 47%N :: name))
                  = rev (dir ++ 47%N :: name)).
  { rewrite rev_app_distr. simpl rev.
    destruct (rev name) as [ | c r] eqn:Hr.
    - apply (f_equal (@rev N)) in Hr. rewrite rev_involutive in Hr. contradiction.
    - assert (Hc : c <> 47%N).
      { apply Hplain. apply in_rev. rewrite Hr. left. reflexivity. }
      apply N.eqb_neq in Hc. simpl. rewrite Hc. reflexivity. }
  rewrite Hkeep, rev_involutive, last_segment_after_slash.
  apply (@last_segment_plain name [] Hplain).
Qed.

(** ** File-ready waiter: where the loop stops *)

Section WaiterMore.
Import Waiter.

Variable w : World.
Variable filePath : jsstring.

(** One round of the loop that does not return: the trace of the poll,
    a timer, and the rest. *)
Lemma loop_unfold : forall fuel timeoutMs k e,
  loop (S fuel) w filePath timeoutMs k e
  = if (e <? timeoutMs)%Z then
      if ready (probe w k)
      then Some (Ok true, [existsSync_call filePath; statSync_call filePath])
      else
        match loop fuel w filePath timeoutMs (S k) (e + 100 + late w (S k))%Z with
        | Some (r, tr) =>
            Some (r, (existsSync_call filePath
                      :: if existsSync (probe w k) then [statSync_call filePath] else [])
                     ++ setTimeout_call 100 :: tr)
        | None => None
        end
    else Some (Ok false, []).
Proof.
  intros fuel T k e. cbn [loop].
  destruct (e <? T)%Z; [|reflexivity].
  destruct (probe w k) as [ | | size]; simpl; reflexivity.
Qed.

Lemma counts_round : forall (b : bool) tr,
  polls_of (existsSync_call filePath
            :: (if b then [statSync_call filePath] else [])
               ++ setTimeout_call 100 :: tr) = S (polls_of tr) /\
  timers_of (existsSync_call filePath
             :: (if b then [statSync_call filePath] else [])
                ++ setTimeout_call 100 :: tr) = S (timers_of tr).
Proof.
  intros b tr. destruct b; split; reflexivity.
Qed.

Lemma schedule_counts : forall n k rest,
  timers_of (polling_schedule w filePath k n ++ rest) = (n + timers_of rest)%nat /\
  polls_of (polling_schedule w filePath k n ++ rest) = (n + polls_of rest)%nat.
Proof.
  induction n as [ | n IH]; intros k rest; [split; reflexivity|].
  destruct (IH (S k) rest) as [IHt IHp].
  unfold timers_of, polls_of in *.
  cbn [polling_schedule]. unfold poll_events.
  destruct (existsSync (probe w k)); simpl; rewrite ?IHt, ?IHp; split; reflexivity.
Qed.

(** The trace of the loop from test [k] on is the polling schedule: some
    number [n] of polls that fail, each made before the timeout and
    followed by one timer of 100 ms, and then either the poll that finds
    the file ready (made before the timeout, nothing after it) or the
    test that finds the timeout over (no poll after it). *)
Lemma loop_schedule : forall fuel timeoutMs k b tr,
  loop fuel w filePath timeoutMs k (elapsed_at w k) = Some (Ok b, tr) ->
  exists n,
    tr = polling_schedule w filePath k n
         ++ (if b then [existsSync_call filePath; statSync_call filePath] else []) /\
    (forall j, (k <= j < k + n)%nat ->
       (elapsed_at w j < timeoutMs)%Z /\ ready (probe w j) = false) /\
    (if b then (elapsed_at w (k + n) < timeoutMs)%Z /\ ready (probe w (k + n)) = true
     else (timeoutMs <= elapsed_at w (k + n))%Z).
Proof.
  induction fuel as [ | f IH]; intros T k b tr H; [discriminate|].
  rewrite loop_unfold in H.
  destruct (elapsed_at w k <? T)%Z eqn:He.
  - apply Z.ltb_lt in He.
    destruct (ready (probe w k)) eqn:Hr.
    + injection H as <- <-. exists 0%nat. rewrite Nat.add_0_r.
      split; [reflexivity|]. split; [intros j Hj; lia | split; assumption].
    + change (elapsed_at w k + 100 + late w (S k))%Z with (elapsed_at w (S k)) in H.
      destruct (loop f w filePath T (S k) (elapsed_at w (S k))) as [[r tr1] | ] eqn:Hrec;
        [|discriminate].
      injection H as -> <-.
      destruct (IH _ _ _ _ Hrec) as (n & Htr & Hbefore & Hlast).
      exists (S n).
      replace (k + S n)%nat with (S k + n)%nat by lia.
      split; [|split; [|exact Hlast]].
      * rewrite Htr. cbn [polling_schedule]. unfold poll_events.
        rewrite <- app_assoc. reflexivity.
      * intros j Hj. destruct (Nat.eq_dec j k) as [-> | Hne]; [split; assumption|].
        apply Hbefore. lia.
  - apply Z.ltb_ge in He. injection H as <- <-. exists 0%nat. rewrite Nat.add_0_r.
    split; [reflexivity|]. split; [intros j Hj; lia | exact He].
Qed.

(** X6: a longer timeout never turns a success into a failure: the same
    run succeeds at the same poll, with the same trace. *)
Theorem waitForFile_longer_timeout : forall fuel timeoutMs timeoutMs' tr,
  (timeoutMs <= timeoutMs')%Z ->
  waitForFile fuel w filePath timeoutMs = Some (Ok true, tr) ->
  waitForFile fuel w filePath timeoutMs' = Some (Ok true, tr).
Proof.
  intros fuel T T' tr HT. unfold waitForFile.
  generalize (late w 0) as e. generalize 0%nat as k. revert tr.
  induction fuel as [ | f IH]; intros tr k e H; [discriminate|].
  rewrite loop_unfold in H |- *.
  destruct (e <? T)%Z eqn:He; [|discriminate].
  apply Z.ltb_lt in He.
  assert (He' : (e <? T')%Z = true) by (apply Z.ltb_lt; lia).
  rewrite He'.
  destruct (ready (probe w k)); [exact H|].
  destruct (loop f w filePath T (S k) (e + 100 + late w (S k))%Z)
    as [[r tr1] | ] eqn:Hrec; [|discriminate].
  injection H as -> <-.
  rewrite (IH _ _ _ Hrec). reflexivity.
Qed.

(** The loop from test [k] on, when it answers [true]: it has set as many
    timers as polls failed, the poll after the last timer found the file
    ready before the timeout, and no earlier poll did. *)
Lemma loop_true_at_first_ready : forall fuel timeoutMs k tr,
  loop fuel w filePath timeoutMs k (elapsed_at w k) = Some (Ok true, tr) ->
  ready (probe w (k + timers_of tr)) = true /\
  (elapsed_at w (k + timers_of tr) < timeoutMs)%Z /\
  (forall j, (k <= j < k + timers_of tr)%nat -> ready (probe w j) = false) /\
  polls_of tr = S (timers_of tr).
Proof.
  induction fuel as [ | f IH]; intros T k tr H; [discriminate|].
  rewrite loop_unfold in H.
  destruct (elapsed_at w k <? T)%Z eqn:He; [|discriminate].
  apply Z.ltb_lt in He.
  destruct (ready (probe w k)) eqn:Hr.
  - injection H as <-. simpl. rewrite Nat.add_0_r.
    repeat split; auto. intros j Hj. lia.
  - change (elapsed_at w k + 100 + late w (S k))%Z with (elapsed_at w (S k)) in H.
    destruct (loop f w filePath T (S k) (elapsed_at w (S k))) as [[r tr1] | ] eqn:Hrec;
      [|discriminate].
    injection H as -> <-.
    destruct (IH _ _ _ Hrec) as (H1 & H2 & H3 & H4).
    destruct (counts_round (existsSync (probe w k)) tr1) as [Hp Ht].
    rewrite Hp, Ht.
    replace (k + S (timers_of tr1))%nat with (S k + timers_of tr1)%nat by lia.
    repeat split; auto.
    intros j Hj. destruct (Nat.eq_dec j k) as [-> | Hne]; [exact Hr|].
    apply H3. lia.
Qed.

(** X7: when [waitForFile] returns [true], it returns at the first poll
    that finds the file present with non-zero size: that poll was made
    before the timeout, every earlier poll failed and was followed by one
    100 ms timer, and no timer follows the poll that succeeds.  The trace
    is exactly that: the schedule of the polls that failed, in order, each
    with its timer of 100 ms, and then the two checks of the poll that
    succeeds. *)
Theorem waitForFile_returns_at_first_ready : forall fuel timeoutMs tr,
  waitForFile fuel w filePath timeoutMs = Some (Ok true, tr) ->
  ready (probe w (timers_of tr)) = true /\
  (elapsed_at w (timers_of tr) < timeoutMs)%Z /\
  (forall j, (j < timers_of tr)%nat -> ready (probe w j) = false) /\
  polls_of tr = S (timers_of tr) /\
  tr = polling_schedule w filePath 0 (timers_of tr)
       ++ [existsSync_call filePath; statSync_call filePath].
Proof.
  intros fuel T tr H. unfold waitForFile in H.
  change (late w 0) with (elapsed_at w 0) in H.
  destruct (loop_true_at_first_ready _ _ _ H) as (H1 & H2 & H3 & H4).
  destruct (loop_schedule _ _ _ H) as (n & Htr & _ & _).
  assert (Hn : timers_of tr = n).
  { rewrite Htr.
    destruct (schedule_counts n 0 [existsSync_call filePath; statSync_call filePath])
      as [Ht _].
    rewrite Ht. apply Nat.add_0_r. }
  simpl in H1, H2, H3. repeat split; auto.
  - intros j Hj. apply H3. lia.
  - rewrite Hn. exact Htr.
Qed.

Lemma loop_false_at_timeout : forall fuel timeoutMs k tr,
  loop fuel w filePath timeoutMs k (elapsed_at w k) = Some (Ok false, tr) ->
  (timeoutMs <= elapsed_at w (k + timers_of tr))%Z /\
  (forall j, (k <= j < k + timers_of tr)%nat ->
     (elapsed_at w j < timeoutMs)%Z /\ ready (probe w j) = false) /\
  polls_of tr = timers_of tr.
Proof.
  induction fuel as [ | f IH]; intros T k tr H; [discriminate|].
  rewrite loop_unfold in H.
  destruct (elapsed_at w k <? T)%Z eqn:He.
  - apply Z.ltb_lt in He.
    destruct (ready (probe w k)) eqn:Hr; [discriminate|].
    change (elapsed_at w k + 100 + late w (S k))%Z with (elapsed_at w (S k)) in H.
    destruct (loop f w filePath T (S k) (elapsed_at w (S k))) as [[r tr1] | ] eqn:Hrec;
      [|discriminate].
    injection H as -> <-.
    destruct (IH _ _ _ Hrec) as (H1 & H2 & H3).
    destruct (counts_round (existsSync (probe w k)) tr1) as [Hp Ht].
    rewrite Hp, Ht.
    replace (k + S (timers_of tr1))%nat with (S k + timers_of tr1)%nat by lia.
    repeat split; auto.
    + destruct (Nat.eq_dec j k) as [-> | Hne]; [exact He|]. apply H2. lia.
    + destruct (Nat.eq_dec j k) as [-> | Hne]; [exact Hr|]. apply H2. lia.
  - apply Z.ltb_ge in He. injection H as <-. simpl. rewrite Nat.add_0_r.
    repeat split; auto; lia.
Qed.

(** X8: when [waitForFile] returns [false], it returns at the first loop
    test made at or after the timeout, not earlier: every test before it
    was made before the timeout and was followed by a poll that did not
    find the file ready. *)
Theorem waitForFile_false_at_timeout : forall fuel timeoutMs tr,
  waitForFile fuel w filePath timeoutMs = Some (Ok false, tr) ->
  (timeoutMs <= elapsed_at w (timers_of tr))%Z /\
  (forall j, (j < timers_of tr)%nat ->
     (elapsed_at w j < timeoutMs)%Z /\ ready (probe w j) = false) /\
  polls_of tr = timers_of tr.
Proof.
  intros fuel T tr H. unfold waitForFile in H.
  change (late w 0) with (elapsed_at w 0) in H.
  destruct (loop_false_at_timeout _ _ _ H) as (H1 & H2 & H3).
  simpl in H1, H2. repeat split; auto; apply H2; lia.
Qed.

(** Timers do not fire early. *)
Hypothesis timers_not_early : forall k, (0 <= late w k)%Z.

Lemma elapsed_at_least : forall k, (100 * Z.of_nat k <= elapsed_at w k)%Z.
Proof.
  induction k as [ | k IH].
  - simpl. apply timers_not_early.
  - change (elapsed_at w (S k)) with (elapsed_at w k + 100 + late w (S k))%Z.
    specialize (timers_not_early (S k)). lia.
Qed.

(** X9: with timers that do not fire early, a call with timeout T checks
    the file at most ceil(T / 100) times, whatever it returns (50 times
    for the 5000 ms of [stopRecording]), and not at all for T <= 0. *)
Theorem waitForFile_bounded_polls : forall fuel timeoutMs r tr,
  waitForFile fuel w filePath timeoutMs = Some (Ok r, tr) ->
  (Z.of_nat (polls_of tr) <= Z.max 0 ((timeoutMs + 99) / 100))%Z.
Proof.
  intros fuel T r tr H.
  assert (Hlate : forall n, (Z.of_nat n < Z.max 0 ((T + 99) / 100))%Z \/
                            (T <= elapsed_at w n)%Z).
  { intros n. pose proof (elapsed_at_least n).
    destruct (Z_lt_le_dec (elapsed_at w n) T) as [Hlt | Hge]; [left | right; exact Hge].
    assert (100 * Z.of_nat n < T)%Z by lia.
    pose proof (Z.div_mod (T + 99) 100 ltac:(lia)).
    pose proof (Z.mod_pos_bound (T + 99) 100 ltac:(lia)). lia. }
  unfold waitForFile in H. change (late w 0) with (elapsed_at w 0) in H.
  destruct r.
  - destruct (loop_true_at_first_ready _ _ _ H) as (_ & Hlt & _ & Hp).
    simpl in Hlt. rewrite Hp. destruct (Hlate (timers_of tr)); lia.
  - destruct (loop_false_at_timeout _ _ _ H) as (_ & Hall & Hp).
    rewrite Hp. destruct (timers_of tr) as [ | n] eqn:Hn; [lia|].
    destruct (Hall n ltac:(lia)) as [Hlt _].
    destruct (Hlate n); lia.
Qed.

End WaiterMore.

(** ** File-ready waiter: the polling schedule *)

Section WaiterSchedule.
Import Waiter.

Variable w : World.
Variable filePath : jsstring.
Variable timeoutMs : Z.

(** The clock as before: it has not run backwards at the first test and
    has moved on after each timer. *)
Hypothesis first_test_after_start : (0 <= late w 0)%Z.
Hypothesis timers_make_progress : forall k, (-100 < late w (S k))%Z.

(** C5: under a clock that moves on, [waitForFile] returns (with the fuel
    [enough timeoutMs], and with any more), never throws, and returns
    [true] exactly when some poll that happens before the timeout finds
    the file present with non-zero size ([false] when none does, a failing
    [statSync] counting as not ready).  It polls at a fixed interval of
    100 ms: its trace is the polling schedule of the [n] polls that did
    not find the file ready, each made before the timeout and each
    followed by exactly one timer of 100 ms before the next test; then,
    for [true], the existence check and the size check of poll [n], made
    before the timeout, with no timer after them; for [false], nothing
    more, test [n] being the first made at or after the timeout. *)
Theorem waitForFile_polls :
  exists b tr,
    (forall extra, waitForFile (enough timeoutMs + extra) w filePath timeoutMs
                   = Some (Ok b, tr)) /\
    (b = true <->
     exists k, (elapsed_at w k < timeoutMs)%Z /\ ready (probe w k) = true) /\
    (b = false <->
     forall k, (elapsed_at w k < timeoutMs)%Z -> ready (probe w k) = false) /\
    (forall ms, In (setTimeout_call ms) tr -> ms = 100%Z) /\
    exists n,
      tr = polling_schedule w filePath 0 n
           ++ (if b then [existsSync_call filePath; statSync_call filePath] else []) /\
      (forall j, (j < n)%nat ->
         (elapsed_at w j < timeoutMs)%Z /\ ready (probe w j) = false) /\
      (if b then (elapsed_at w n < timeoutMs)%Z /\ ready (probe w n) = true
       else (timeoutMs <= elapsed_at w n)%Z).
Proof.
  destruct (@waitForFile_outcome w filePath timeoutMs
              first_test_after_start timers_make_progress)
    as (b & tr & Hrun & Hb & Hnb & Hms).
  exists b, tr. repeat (split; [assumption|]).
  specialize (Hrun 0%nat). unfold waitForFile in Hrun.
  change (late w 0) with (elapsed_at w 0) in Hrun.
  destruct (loop_schedule _ _ _ _ _ Hrun) as (n & Htr & Hbefore & Hlast).
  exists n. split; [exact Htr|]. split; [|exact Hlast].
  intros j Hj. apply Hbefore. lia.
Qed.

End WaiterSchedule.

Lemma waitForFile_polls_witness :
  Waiter.waitForFile (Waiter.enough 500)
    (Waiter.mkWorld (fun _ => 3%Z)
       (fun k => if (k <? 2)%nat then Waiter.StatFails else Waiter.Size 1))
    (js "/tmp/audio.wav") 500
  = Some (Ok true,
          [Waiter.existsSync_call (js "/tmp/audio.wav");
           Waiter.statSync_call (js "/tmp/audio.wav");
           Waiter.setTimeout_call 100;
           Waiter.existsSync_call (js "/tmp/audio.wav");
           Waiter.statSync_call (js "/tmp/audio.wav");
           Waiter.setTimeout_call 100;
           Waiter.existsSync_call (js "/tmp/audio.wav");
           Waiter.statSync_call (js "/tmp/audio.wav")]).
Proof.
  destruct (@waitForFile_polls
              (Waiter.mkWorld (fun _ => 3%Z)
                 (fun k => if (k <? 2)%nat then Waiter.StatFails else Waiter.Size 1))
              (js "/tmp/audio.wav") 500%Z)
    as (b & tr & Hrun & Hb & _ & _ & n & Htr & Hbefore & Hlast).
  - simpl. lia.
  - intros k. simpl. lia.
  - assert (Htrue : b = true).
    { apply Hb. exists 2%nat. split; [vm_compute; reflexivity | reflexivity]. }
    subst b. destruct Hlast as [_ Hready].
    assert (Hn : n = 2%nat).
    { destruct n as [ | [ | [ | n]]]; try discriminate Hready; [reflexivity|].
      destruct (Hbefore 2%nat ltac:(lia)) as [_ Hno]. discriminate Hno. }
    subst n. specialize (Hrun 0%nat). rewrite Nat.add_0_r in Hrun.
    rewrite Hrun, Htr. reflexivity.
Defined.

(** ** Configuration persistence: every typed configuration round-trips *)

(** The configurations of type [{ model?: VoiceModel }]. *)
Lemma loadConfig_typed : forall fs p c,
  loadConfig fs p = Ok c ->
  c = empty_config \/ exists m, In m MODEL_OPTIONS /\ c = mkConfig (Some m).
Proof.
  intros fs p c H. unfold loadConfig, loadConfig_try in H.
  destruct (negb (Fs.existsSync fs p)); [injection H as <-; auto|].
  destruct (Fs.readFileSync fs p) as [raw | ]; simpl in H; [|injection H as <-; auto].
  destruct (JSON_parse raw) as [parsed | ]; simpl in H; [|injection H as <-; auto].
  destruct (optional_model parsed) as [v | ]; simpl in H; [|injection H as <-; auto].
  destruct (recognized v) as [m | ] eqn:Hr; injection H as <-; [|auto].
  right. exists m. apply recognized_some in Hr. tauto.
Qed.

Lemma saved_config_loads :
  forall (Number_toString : jsstring -> jsstring) (fs : Fs.FS) (p : jsstring) c,
    c = empty_config \/ (exists m, In m MODEL_OPTIONS /\ c = mkConfig (Some m)) ->
    Fs.writable fs p = true ->
    Fs.entry fs p <> Fs.Unreadable ->
    loadConfig (saveConfig Number_toString fs c p) p = Ok c /\
    Fs.writable (saveConfig Number_toString fs c p) p = true /\
    Fs.entry (saveConfig Number_toString fs c p) p <> Fs.Unreadable.
Proof.
  intros ntos fs p c Hc Hw Hr.
  unfold saveConfig, Fs.writeFileSync. rewrite Hw.
  unfold loadConfig, loadConfig_try, Fs.existsSync, Fs.readFileSync.
  cbn [Fs.entry Fs.writable]. rewrite str_eqb_refl.
  split; [|split; [exact Hw|]].
  - destruct (Fs.entry fs p); [ | congruence | ];
      (destruct Hc as [-> | (m & [<- | [<- | []]] & ->)]; vm_compute; reflexivity).
  - destruct (Fs.entry fs p); congruence.
Qed.

(** X10: what [loadConfig] returned can be saved back without loss: when
    the write succeeds and the file can be read, saving the loaded
    configuration (the empty one included) and loading again gives the
    same configuration. *)
Theorem reload_after_save_is_stable :
  forall (Number_toString : jsstring -> jsstring) (fs : Fs.FS) (p : jsstring) c,
    loadConfig fs p = Ok c ->
    Fs.writable fs p = true ->
    Fs.entry fs p <> Fs.Unreadable ->
    loadConfig (saveConfig Number_toString fs c p) p = Ok c.
Proof.
  intros ntos fs p c Hload Hw Hr.
  apply saved_config_loads; auto. eapply loadConfig_typed; eauto.
Qed.

(** X11: the last save wins: of two configurations saved one after the
    other to a path that can be written and read, be they empty or with a
    recognized model, [loadConfig] returns the second. *)
Theorem last_save_wins :
  forall (Number_toString : jsstring -> jsstring) (fs : Fs.FS) (p : jsstring) c1 c2,
    c1 = empty_config \/ (exists m, In m MODEL_OPTIONS /\ c1 = mkConfig (Some m)) ->
    c2 = empty_config \/ (exists m, In m MODEL_OPTIONS /\ c2 = mkConfig (Some m)) ->
    Fs.writable fs p = true ->
    Fs.entry fs p <> Fs.Unreadable ->
    loadConfig
      (saveConfig Number_toString (saveConfig Number_toString fs c1 p) c2 p) p
    = Ok c2.
Proof.
  intros ntos fs p c1 c2 H1 H2 Hw Hr.
  destruct (@saved_config_loads ntos fs p c1 H1 Hw Hr) as (_ & Hw1 & Hr1).
  apply saved_config_loads; auto.
Qed.

(** ** Orchestration: what every step keeps *)

Section OrchestrationMore.
Import Orchestration.

Variable Number_toString : jsstring -> jsstring.
Variable homedir : jsstring.

(** Case analysis on everything a step looks at. *)
Ltac break_in H :=
  repeat (match type of H with
          | context [match ?x with _ => _ end] =>
              lazymatch x with
              | context [match _ with _ => _ end] => fail
              | _ => destruct x eqn:?
              end
          end; cbn beta iota zeta in H; try discriminate H).

Ltac open_step H :=
  unfold step, resume_task, shortcut_handler, command_handler,
    on_session_start, on_session_shutdown, command_after_select,
    start_after_ffmpeg, start_after_input, check_early_exit,
    stop_after_exit, stop_after_outcome, stopRecording, startRecording,
    spawn_recording, on_exit, suspend, with_closure, bind,
    start_blocked, is_some, truthy_opt in H;
  cbn beta iota zeta in H;
  break_in H;
  try (injection H as <- <-).

Ltac in_effects H :=
  repeat rewrite in_app_iff in H; cbn [In] in H;
  repeat match type of H with
         | _ \/ _ => destruct H as [H | H]
         | False => destruct H
         end;
  try discriminate H.

Lemma loadConfig_recognized : forall fs p m,
  loadConfig fs p = Ok (mkConfig (Some m)) -> In m MODEL_OPTIONS.
Proof.
  intros fs p m H. destruct (loadConfig_typed _ _ H) as [Hc | (m' & Hin & Hc)].
  - discriminate Hc.
  - injection Hc as ->. exact Hin.
Qed.

Lemma existsb_option : forall m,
  existsb (str_eqb m) MODEL_OPTIONS = true -> In m MODEL_OPTIONS.
Proof.
  intros m H. apply existsb_exists in H as (x & Hin & Hx).
  apply str_eqb_true in Hx. subst. exact Hin.
Qed.

Lemma step_keeps_model : forall l s s' eff,
  In (preferredModel (closure s)) MODEL_OPTIONS ->
  step Number_toString homedir l s = Some (s', eff) ->
  In (preferredModel (closure s')) MODEL_OPTIONS.
Proof.
  intros l s s' eff Hin H.
  destruct l; open_step H; cbn [closure preferredModel]; auto;
    try (apply existsb_option; assumption);
    try (eapply loadConfig_recognized; eassumption).
Qed.

(** X12: in every reachable state the preferred model is one of the two
    recognized identifiers: neither the configuration file nor the answer
    of the selection dialog can set it to anything else. *)
Theorem preferred_model_recognized : forall fs0 s,
  reachable Number_toString homedir fs0 s ->
  In (preferredModel (closure s)) MODEL_OPTIONS.
Proof.
  intros fs0 s H. induction H as [ | s l s' eff _ IH Hstep].
  - right. left. reflexivity.
  - eapply step_keeps_model; eauto.
Qed.


(** X14: the only signal ever sent is SIGINT, and it only ever goes to
    the process of the session that is active when the step begins. *)
Theorem only_the_session_is_signalled : forall l s s' eff p sig,
  step Number_toString homedir l s = Some (s', eff) ->
  In (kill p sig) eff ->
  sig = js "SIGINT" /\
  exists r, recording (closure s) = Some r /\ proc r = p.
Proof.
  intros l s s' eff p sig H Hin.
  destruct l; open_step H; cbn [closure recording] in *; in_effects Hin;
    injection Hin as <- <-; eauto.
Qed.

(** X15: every process that is spawned is ffmpeg with the arguments of
    [buildFfmpegArgs], on a non-empty input device, and is recorded as the
    session by the step that spawns it; that step is the resumption of a
    suspended [startRecording], and the input is remembered. *)
Theorem every_spawn_is_recorded : forall l s s' eff cmd argv p,
  step Number_toString homedir l s = Some (s', eff) ->
  In (spawn cmd argv p) eff ->
  cmd = js "ffmpeg" /\ p = spawned s /\ spawned s' = S (spawned s) /\
  procs s' p = Running /\
  (exists i a h, l = resume i a h) /\
  exists r,
    recording (closure s') = Some r /\ proc r = p /\
    argv = buildFfmpegArgs (filePath r) (input r) /\
    input r <> [] /\
    preferredInput (closure s') = Some (input r).
Proof.
  intros l s s' eff cmd argv p H Hin.
  destruct l; open_step H;
    cbn [closure recording spawned procs preferredInput] in *; in_effects Hin;
    injection Hin as <- <- <-;
    (split; [reflexivity|]); (split; [reflexivity|]); (split; [reflexivity|]);
    (split; [rewrite Nat.eqb_refl; reflexivity|]);
    (split; [eauto|]);
    eexists; (split; [reflexivity|]); cbn [proc filePath input];
    repeat split; try discriminate;
    match goal with
    | Ht : truthy ?x = true |- ?x <> [] => intros ->; discriminate Ht
    end.
Qed.

(** X16: [which ffmpeg] is asked only while the answer is unknown: once
    [ffmpegAvailable] holds an answer, it holds one after every step, and
    no step runs the lookup again. *)
Theorem ffmpeg_lookup_is_cached : forall l s s' eff b,
  ffmpegAvailable (closure s) = Some b ->
  step Number_toString homedir l s = Some (s', eff) ->
  (exists b', ffmpegAvailable (closure s') = Some b') /\
  forall cmd argv, ~ In (exec cmd argv) eff.
Proof.
  intros l s s' eff b Hb H.
  destruct l; open_step H; cbn [closure ffmpegAvailable] in *;
    try discriminate Hb;
    (split; [eauto | intros cmd argv Hin; in_effects Hin]).
Qed.

Lemma forallb_remove_nth : forall (A : Type) (f : A -> bool) l i,
  forallb f l = true -> forallb f (remove_nth i l) = true.
Proof.
  induction l as [ | a l IH]; intros i H; [destruct i; exact H|].
  simpl in H. apply andb_prop in H as [Ha Hl].
  destruct i; simpl; [exact Hl|]. rewrite Ha. apply IH. exact Hl.
Qed.

Lemma forallb_nth_error : forall (A : Type) (f : A -> bool) l i t,
  forallb f l = true -> nth_error l i = Some t -> f t = true.
Proof.
  intros A f l i t H Hn. apply nth_error_In in Hn.
  rewrite forallb_forall in H. apply H. exact Hn.
Qed.

Lemma step_keeps_missing : forall l s s' eff,
  ffmpeg_known_missing s ->
  step Number_toString homedir l s = Some (s', eff) ->
  ffmpeg_known_missing s' /\ spawned s' = spawned s /\
  (recording (closure s) = None -> recording (closure s') = None).
Proof.
  intros l s s' eff [Hf Hp] H.
  destruct l; open_step H;
    try match goal with
        | Hb : negb ?b = _ |- _ => is_var b; destruct b; try discriminate Hb
        end;
    try match goal with
        | Hn : nth_error (pending s) _ = Some _ |- _ =>
            let Hi := fresh in
            pose proof (@forallb_nth_error _ _ _ _ _ Hp Hn) as Hi;
            cbn in Hi; discriminate Hi
        end;
    try match type of Hf with Some ?b = Some false => injection Hf as -> end;
    unfold ffmpeg_known_missing;
    cbn [closure ffmpegAvailable pending spawned recording];
    try congruence;
    repeat split; auto; try congruence;
    rewrite ?forallb_app, ?Hp; cbn [forallb start_inert];
    rewrite ?andb_true_r; auto using forallb_remove_nth.
Qed.

(** X17: ffmpeg found missing stays missing.  When [which ffmpeg] answers
    with a non-zero code and no other [startRecording] is under way, the
    user is told so once; from then on no run of the extension spawns a
    process or starts a session: the negative answer is never looked up
    again. *)
Theorem ffmpeg_missing_is_final :
  (forall ctx code h s,
     code <> 0%Z ->
     forallb start_inert (pending s) = true ->
     ffmpeg_known_missing (fst (start_after_ffmpeg ctx None (Ok code) h s)) /\
     snd (start_after_ffmpeg ctx None (Ok code) h s)
     = [notify (js "ffmpeg not found. Install ffmpeg to enable voice capture.")
          (js "error")]) /\
  (forall labels s s',
     ffmpeg_known_missing s ->
     run Number_toString homedir labels s = Some s' ->
     ffmpeg_known_missing s' /\ spawned s' = spawned s /\
     (recording (closure s) = None -> recording (closure s') = None)).
Proof.
  split.
  - intros ctx code h s Hc Hp. unfold start_after_ffmpeg. cbn [bind].
    apply Z.eqb_neq in Hc. rewrite Hc. cbn. split; [|reflexivity].
    split; [reflexivity | exact Hp].
  - induction labels as [ | l rest IH]; intros s s' Hm Hrun.
    + injection Hrun as <-. auto.
    + cbn [run] in Hrun.
      destruct (step Number_toString homedir l s) as [[s1 eff] | ] eqn:Hstep;
        [|discriminate].
      destruct (@step_keeps_missing _ _ _ _ Hm Hstep) as (Hm1 & Hs1 & Hr1).
      destruct (IH _ _ Hm1 Hrun) as (Hm' & Hs' & Hr').
      split; [exact Hm'|]. split; [congruence|]. auto.
Qed.

Lemma step_keeps_inputs : forall l s s' eff,
  (forall r, recording (closure s) = Some r -> input r <> []) ->
  (forall i, preferredInput (closure s) = Some i -> i <> []) ->
  step Number_toString homedir l s = Some (s', eff) ->
  (forall r, recording (closure s') = Some r -> input r <> []) /\
  (forall i, preferredInput (closure s') = Some i -> i <> []).
Proof.
  intros l s s' eff Hr Hi H.
  destruct l; open_step H; cbn [closure recording preferredInput];
    (split; [intros r0 E | intros i0 E]);
    try discriminate E; auto;
    try (apply Hr; congruence); try (apply Hi; congruence);
    try (injection E as <-; cbn [input]);
    try discriminate;
    try match goal with
        | Ht : truthy ?x = true |- ?x <> [] => intros ->; discriminate Ht
        end.
Qed.

(** X18: the input device of a session is never the empty string, and
    neither is the remembered one.  So once a device is remembered the
    microphone prompt is not shown again, unless PI_VOICE_INPUT is set to
    the empty string. *)
Theorem microphone_prompt_only_until_remembered : forall fs0 s,
  reachable Number_toString homedir fs0 s ->
  (forall r, recording (closure s) = Some r -> input r <> []) /\
  (forall i, preferredInput (closure s) = Some i -> i <> []) /\
  (forall i ctx cached code h title placeholder,
     preferredInput (closure s) = Some i ->
     PI_VOICE_INPUT h <> Some [] ->
     ~ In (ui_input title placeholder)
          (snd (start_after_ffmpeg ctx cached code h s))).
Proof.
  intros fs0 s Hreach.
  assert (Hinv : (forall r, recording (closure s) = Some r -> input r <> []) /\
                 (forall i, preferredInput (closure s) = Some i -> i <> [])).
  { induction Hreach as [ | s l s' eff _ [IH1 IH2] Hstep].
    - split; intros x E; discriminate E.
    - eapply step_keeps_inputs; eauto. }
  destruct Hinv as [H1 H2]. split; [exact H1|]. split; [exact H2|].
  intros i ctx cached code h title placeholder Hi Hov Hin.
  specialize (H2 i Hi).
  destruct (start_after_ffmpeg ctx cached code h s) as [s' eff] eqn:H.
  cbn [snd] in Hin.
  unfold start_after_ffmpeg, spawn_recording, suspend, with_closure, bind,
    truthy_opt in H.
  cbn beta iota zeta in H. break_in H; injection H as <- <-;
    cbn [closure preferredInput] in *; in_effects Hin;
    try congruence; exfalso;
    repeat match goal with
           | Hc : _ && _ = true |- _ => apply andb_prop in Hc; destruct Hc
           | Hc : negb _ = true |- _ => apply negb_true_iff in Hc
           end;
    repeat match goal with
           | Ht : truthy ?j = false |- _ => destruct j; [ | discriminate Ht]
           end;
    try (apply Hov; reflexivity); congruence.
Qed.

Lemma str_eqb_false : forall a b : jsstring, a <> b -> str_eqb a b = false.
Proof.
  intros a b H. unfold str_eqb.
  destruct (list_eq_dec N.eq_dec a b); [contradiction | reflexivity].
Qed.

(** X19: while [transcribing] is set a toggle does nothing at all, be a
    session active or not: the shortcut always, the command whenever it is
    a toggle (a UI, and an argument other than "model"). *)
Theorem toggles_ignored_while_transcribing : forall args ctx h s,
  transcribing (closure s) = true ->
  shortcut_handler ctx h s = (s, []) /\
  (hasUI ctx = true ->
   toLowerCase (trim (match args with Some a => a | None => [] end)) <> js "model" ->
   command_handler args ctx h s = (s, [])).
Proof.
  intros args ctx h s Ht.
  assert (Htoggle : (if is_some (recording (closure s))
                     then stopRecording ctx h s else startRecording ctx s) = (s, [])).
  { unfold stopRecording, startRecording, start_blocked.
    destruct (recording (closure s)); cbn [is_some]; rewrite Ht; reflexivity. }
  split.
  - unfold shortcut_handler. destruct (negb (hasUI ctx)); [reflexivity | exact Htoggle].
  - intros Hui Hargs. unfold command_handler. rewrite Hui. cbn [negb].
    rewrite (str_eqb_false Hargs). exact Htoggle.
Qed.

(** X20: PI_VOICE_INPUT decides the input device when ffmpeg is
    available.  A non-empty value is used as it is, whatever is remembered
    and with or without a UI, and neither the prompt nor the tip appears.
    An empty value hides the remembered device: with a UI the prompt is
    shown again, without one the default ":0" is used. *)
Theorem voice_input_override : forall ctx code h s dir,
  tmp h = Ok dir ->
  (forall j, PI_VOICE_INPUT h = Some j -> j <> [] ->
     recording (closure (fst (start_after_ffmpeg ctx (Some true) code h s)))
     = Some (mkRecording (spawned s) (dir ++ js "/recording.wav")
               (dir ++ js "/ffmpeg.log") j (now h)) /\
     snd (start_after_ffmpeg ctx (Some true) code h s)
     = [mkdtemp (js "pi-voice-");
        spawn (js "ffmpeg") (buildFfmpegArgs (dir ++ js "/recording.wav") j) (spawned s);
        setStatus STATUS_KEY
          ([55356; 57241]%N ++ js " Recording... (" ++ preferredModel (closure s)
           ++ js ") (Ctrl+Shift+R to stop)");
        notify (js "Recording started (input: " ++ j ++ js ")") (js "info");
        setTimeout 300]) /\
  (PI_VOICE_INPUT h = Some [] ->
   if hasUI ctx
   then start_after_ffmpeg ctx (Some true) code h s
        = (suspend (start_awaits_input ctx) s,
           [ui_input (js "Select microphone")
              (js "Enter avfoundation input (e.g. :0 or 0:0). Default is :0")])
   else exists r,
          recording (closure (fst (start_after_ffmpeg ctx (Some true) code h s)))
          = Some r /\ input r = js ":0").
Proof.
  intros ctx code h s dir Htmp. split.
  - intros j Hj Hne. unfold start_after_ffmpeg, spawn_recording, truthy_opt.
    cbn beta iota zeta. rewrite Hj, Htmp.
    destruct j as [ | c j]; [congruence|]. cbn. split; reflexivity.
  - intros Hj. unfold start_after_ffmpeg, spawn_recording, truthy_opt.
    cbn beta iota zeta. rewrite Hj, Htmp. cbn [truthy negb andb].
    destruct (hasUI ctx); cbn; [reflexivity|]. eexists. split; reflexivity.
Qed.

End OrchestrationMore.

(** ** Orchestration: what the user gets to see *)

Section OrchestrationUser.
Import Orchestration.

Variable Number_toString : jsstring -> jsstring.
Variable homedir : jsstring.

(** X21: however the [try] block of [stopRecording] ends (file never
    ready, transcription returned, transcription failed), the session is
    left as it is, [transcribing] is lowered, the user is notified exactly
    once, and the status line is cleared last.  The editor is written only
    after a transcription that returned text, and what is written is that
    text trimmed: not empty, and without white space at either end. *)
Theorem stop_always_reports : forall r o h s,
  let out := stop_after_outcome r o h s in
  transcribing (closure (fst out)) = false /\
  recording (closure (fst out)) = recording (closure s) /\
  (exists message level, notifications (snd out) = [notify message level]) /\
  (exists before, snd out = before ++ [setStatus STATUS_KEY []]) /\
  (forall t, In (setEditorText t) (snd out) ->
     exists text,
       o = transcribed (Ok text) /\ t = trim text /\ t <> [] /\
       (forall c, hd_error t = Some c -> is_whitespace c = false) /\
       (forall c, hd_error (rev t) = Some c -> is_whitespace c = false)).
Proof.
  intros r o h s. cbv zeta. unfold stop_after_outcome. cbn [fst snd closure].
  split; [reflexivity|]. split; [reflexivity|].
  split; [|split].
  - destruct o as [ | [text | message]].
    + eexists. eexists. reflexivity.
    + destruct (truthy text && truthy (trim text)); eexists; eexists; reflexivity.
    + eexists. eexists. reflexivity.
  - eexists. reflexivity.
  - intros t Hin. apply in_app_or in Hin as [Hin | [Hin | []]]; [|discriminate].
    destruct o as [ | [text | message]].
    + destruct Hin as [Hin | []]. discriminate.
    + destruct (truthy text && truthy (trim text)) eqn:Ht.
      * destruct Hin as [Hin | [Hin | []]]; [|discriminate].
        injection Hin as <-. apply andb_prop in Ht as [_ Ht].
        exists text. split; [reflexivity|]. split; [reflexivity|].
        split; [intros E; rewrite E in Ht; discriminate|].
        split; intros c; apply trim_ends.
      * destruct Hin as [Hin | []]. discriminate.
    + destruct Hin as [Hin | []]. discriminate.
Qed.




(** X23: whatever the temporary directory, the recording of a session is
    uploaded as a file named "recording.wav" of type "audio/wav", beside
    the preferred model and the fixed fields, to the path
    "/audio/transcriptions" under the base URL. *)
Theorem recording_is_uploaded_as_wav : forall ctx input h s dir,
  tmp h = Ok dir ->
  exists r,
    recording (closure (fst (spawn_recording ctx input h s))) = Some r /\
    filePath r = dir ++ js "/recording.wav" /\
    forall env c fetch key buf,
      Transcribe.body (Transcribe.build_request env (upload_params r c fetch) key buf)
      = [Transcribe.text_field (js "model") (preferredModel c);
         Transcribe.text_field (js "language") (js "en");
         Transcribe.text_field (js "prompt")
           (js "Technical, programming context. Preserve code identifiers, file paths, CLI flags, and library names when possible.");
         Transcribe.text_field (js "response_format") (js "json");
         Transcribe.text_field (js "timestamps") (js "false");
         Transcribe.file_field (js "file") buf (js "audio/wav") (js "recording.wav")] /\
      Transcribe.url (Transcribe.build_request env (upload_params r c fetch) key buf)
      = match Transcribe.VENICE_API_BASE env with
        | Some b => b
        | None => js "https://api.venice.ai/api/v1"
        end ++ js "/audio/transcriptions".
Proof.
  intros ctx input h s dir Htmp. unfold spawn_recording. rewrite Htmp.
  eexists. split; [reflexivity|]. cbn [filePath]. split; [reflexivity|].
  intros env c fetch key buf. split; [|reflexivity].
  unfold Transcribe.build_request, upload_params.
  cbn [Transcribe.body Transcribe.filePath Transcribe.model filePath].
  change (dir ++ js "/recording.wav") with (dir ++ 47%N :: js "recording.wav").
  rewrite basename_in_directory; [reflexivity | discriminate | ].
  intros c0 Hc. cbn in Hc.
  repeat (destruct Hc as [<- | Hc]; [discriminate|]). destruct Hc.
Qed.

(** X24: without a usable VENICE_API_KEY in the environment, the
    transcription that [stopRecording] starts fails before any access, and
    the stop ends with the notification "Transcription failed:
    VENICE_API_KEY is not set"; the editor is left alone. *)
Theorem stop_reports_missing_key : forall env r c fetch h s,
  Transcribe.key_missing (Transcribe.VENICE_API_KEY env) = true ->
  Transcribe.transcribeFile Number_toString env (upload_params r c fetch)
  = (Throw (js "VENICE_API_KEY is not set"), []) /\
  snd (stop_after_outcome r
         (transcribed
            (fst (Transcribe.transcribeFile Number_toString env
                    (upload_params r c fetch)))) h s)
  = [notify (js "Transcription failed: VENICE_API_KEY is not set") (js "error");
     setStatus STATUS_KEY []].
Proof.
  intros env r c fetch h s Hk.
  assert (Hrun : Transcribe.transcribeFile Number_toString env (upload_params r c fetch)
                 = (Throw (js "VENICE_API_KEY is not set"), [])).
  { unfold Transcribe.transcribeFile, Transcribe.effective_apiKey, upload_params.
    cbn [Transcribe.apiKey]. rewrite Hk. reflexivity. }
  split; [exact Hrun|]. rewrite Hrun. reflexivity.
Qed.

End OrchestrationUser.

(** ** The further properties at concrete inputs *)

Lemma transcribeFile_unreadable_file_witness :
  Transcribe.transcribeFile (fun lit => lit)
    (Transcribe.mkEnv None (Some (js "key")) (fun _ => Throw (js "ENOENT")))
    (test_params (ok_response None (js "hi")) None)
  = (Throw (js "ENOENT"), [Transcribe.read_file (js "/tmp/audio.wav")]).
Proof.
  apply (@transcribeFile_unreadable_file (fun lit => lit)
           (Transcribe.mkEnv None (Some (js "key")) (fun _ => Throw (js "ENOENT")))
           (test_params (ok_response None (js "hi")) None)
           (js "key") (js "ENOENT"));
    [reflexivity | vm_compute; discriminate | reflexivity].
Defined.

Lemma transcribeFile_single_attempt_witness :
  snd (Transcribe.transcribeFile (fun lit => lit) test_env
         (test_params (ok_response None (js "hi")) (Some (js "key"))))
  = [Transcribe.read_file (js "/tmp/audio.wav");
     Transcribe.fetch_call
       (Transcribe.build_request test_env
          (test_params (ok_response None (js "hi")) (Some (js "key")))
          (js "key") [120%N])].
Proof.
  destruct (@transcribeFile_single_attempt (fun lit => lit) test_env
              (test_params (ok_response None (js "hi")) (Some (js "key"))))
    as [_ Honce].
  apply Honce. right. left. reflexivity.
Defined.

Lemma transcribeFile_transport_failure_witness :
  fst (Transcribe.transcribeFile (fun lit => lit) test_env
         (Transcribe.mkParams (js "/tmp/audio.wav") (js "openai/whisper-large-v3")
            (fun _ => Throw (js "fetch failed")) None (Some (js "key"))))
  = Throw (js "fetch failed").
Proof.
  destruct (@transcribeFile_transport_failure (fun lit => lit) test_env
              (Transcribe.mkParams (js "/tmp/audio.wav") (js "openai/whisper-large-v3")
                 (fun _ => Throw (js "fetch failed")) None (Some (js "key")))
              (js "key") [120%N])
    as [Hreject _];
    [reflexivity | vm_compute; discriminate | reflexivity | ].
  apply Hreject. reflexivity.
Defined.

Lemma explicit_key_takes_precedence_witness :
  Transcribe.transcribeFile (fun lit => lit)
    (Transcribe.mkEnv None (Some (js "good-key")) (fun _ => Ok [120%N]))
    (test_params (ok_response None (js "hi")) (Some []))
  = (Throw (js "VENICE_API_KEY is not set"), []).
Proof.
  destruct (@explicit_key_takes_precedence (fun lit => lit)
              (Transcribe.mkEnv None (Some (js "good-key")) (fun _ => Ok [120%N]))
              (test_params (ok_response None (js "hi")) (Some []))
              [] eq_refl)
    as [Hblank _].
  apply Hblank. reflexivity.
Defined.

Lemma status_decides_outcome_witness :
  exists s,
    Transcribe.handle_response (fun lit => lit)
      (ok_response (Some (js "application/json")) (jq "{'text': "))
    = Ok s.
Proof.
  destruct (@status_decides_outcome (fun lit => lit)
              (ok_response (Some (js "application/json")) (jq "{'text': "))
              (jq "{'text': ") eq_refl)
    as [Hok _].
  apply Hok. reflexivity.
Defined.

Lemma waitForFile_longer_timeout_witness :
  exists tr,
    Waiter.waitForFile 10 test_world (js "/tmp/audio.wav") 5000
    = Some (Ok true, tr).
Proof.
  eexists.
  apply (@waitForFile_longer_timeout test_world (js "/tmp/audio.wav") 10 500%Z 5000%Z);
    [lia | vm_compute; reflexivity].
Defined.

Lemma waitForFile_returns_at_first_ready_witness :
  Waiter.ready (Waiter.probe test_world 2) = true /\
  (Waiter.elapsed_at test_world 2 < 500)%Z /\
  [Waiter.existsSync_call (js "/tmp/audio.wav");
   Waiter.setTimeout_call 100;
   Waiter.existsSync_call (js "/tmp/audio.wav");
   Waiter.setTimeout_call 100;
   Waiter.existsSync_call (js "/tmp/audio.wav");
   Waiter.statSync_call (js "/tmp/audio.wav")]
  = polling_schedule test_world (js "/tmp/audio.wav") 0 2
    ++ [Waiter.existsSync_call (js "/tmp/audio.wav");
        Waiter.statSync_call (js "/tmp/audio.wav")].
Proof.
  destruct (@waitForFile_returns_at_first_ready test_world (js "/tmp/audio.wav")
              10 500%Z
              [Waiter.existsSync_call (js "/tmp/audio.wav");
               Waiter.setTimeout_call 100;
               Waiter.existsSync_call (js "/tmp/audio.wav");
               Waiter.setTimeout_call 100;
               Waiter.existsSync_call (js "/tmp/audio.wav");
               Waiter.statSync_call (js "/tmp/audio.wav")])
    as (Hready & Hbefore & _ & _ & Htr);
    [vm_compute; reflexivity | ].
  split; [exact Hready | split; [exact Hbefore | exact Htr]].
Defined.

Lemma waitForFile_false_at_timeout_witness :
  (200 <= Waiter.elapsed_at empty_world 2)%Z.
Proof.
  destruct (@waitForFile_false_at_timeout empty_world (js "/tmp/missing.wav")
              10 200%Z
              [Waiter.existsSync_call (js "/tmp/missing.wav");
               Waiter.setTimeout_call 100;
               Waiter.existsSync_call (js "/tmp/missing.wav");
               Waiter.setTimeout_call 100])
    as (Hlate & _);
    [vm_compute; reflexivity | ].
  exact Hlate.
Defined.

Lemma waitForFile_bounded_polls_witness :
  (Z.of_nat
     (polls_of
        [Waiter.existsSync_call (js "/tmp/missing.wav");
         Waiter.setTimeout_call 100;
         Waiter.existsSync_call (js "/tmp/missing.wav");
         Waiter.setTimeout_call 100])
   <= Z.max 0 ((200 + 99) / 100))%Z.
Proof.
  apply (@waitForFile_bounded_polls empty_world (js "/tmp/missing.wav")
           (fun k => Z.le_refl 0) 10 200%Z false);
    vm_compute; reflexivity.
Defined.

Lemma reload_after_save_is_stable_witness :
  loadConfig
    (saveConfig (fun lit => lit)
       (Fs.mkFS (fun _ => Fs.File (jq "{'model': 'nvidia/parakeet-tdt-0.6b-v3', 'x': 1}"))
          (fun _ => true))
       (mkConfig (Some (js "nvidia/parakeet-tdt-0.6b-v3"))) (js "/cfg.json"))
    (js "/cfg.json")
  = Ok (mkConfig (Some (js "nvidia/parakeet-tdt-0.6b-v3"))).
Proof.
  apply reload_after_save_is_stable;
    [vm_compute; reflexivity | reflexivity | discriminate].
Defined.

Lemma last_save_wins_witness :
  loadConfig
    (saveConfig (fun lit => lit)
       (saveConfig (fun lit => lit) test_fs
          (mkConfig (Some (js "nvidia/parakeet-tdt-0.6b-v3"))) (js "/cfg.json"))
       empty_config (js "/cfg.json"))
    (js "/cfg.json")
  = Ok empty_config.
Proof.
  apply last_save_wins;
    [right; exists (js "nvidia/parakeet-tdt-0.6b-v3"); split;
       [left; reflexivity | reflexivity]
    | left; reflexivity | reflexivity | discriminate].
Defined.

Lemma recording_system_reachable :
  Orchestration.reachable (fun lit => lit) (js "/home/u") test_fs recording_system.
Proof.
  apply (@run_reachable (fun lit => lit) (js "/home/u") test_fs
           [Orchestration.shortcut (Orchestration.mkCtx true) test_host;
            Orchestration.resume 0 (Orchestration.settled (Ok 0%Z)) test_host]
           (Orchestration.initial_system test_fs)).
  - apply Orchestration.reachable_initial.
  - reflexivity.
Defined.

Lemma preferred_model_recognized_witness :
  In (Orchestration.preferredModel (Orchestration.closure recording_system))
     MODEL_OPTIONS.
Proof.
  apply (@preferred_model_recognized (fun lit => lit) (js "/home/u") test_fs).
  apply recording_system_reachable.
Defined.


Lemma only_the_session_is_signalled_witness :
  exists r,
    Orchestration.recording (Orchestration.closure recording_system) = Some r /\
    Orchestration.proc r = 0%nat.
Proof.
  refine (proj2 (@only_the_session_is_signalled (fun lit => lit) (js "/home/u")
                   (Orchestration.shortcut (Orchestration.mkCtx true) test_host)
                   recording_system _ _ 0%nat (js "SIGINT") eq_refl _)).
  right. left. reflexivity.
Defined.

Lemma every_spawn_is_recorded_witness :
  exists s' eff,
    Orchestration.step (fun lit => lit) (js "/home/u")
      (Orchestration.resume 0 (Orchestration.settled (Ok 0%Z)) test_host)
      starting_system
    = Some (s', eff) /\
    Orchestration.spawned s' = 1%nat /\
    Orchestration.procs s' 0 = Orchestration.Running.
Proof.
  eexists. eexists. split; [reflexivity|].
  destruct (@every_spawn_is_recorded (fun lit => lit) (js "/home/u")
              (Orchestration.resume 0 (Orchestration.settled (Ok 0%Z)) test_host)
              starting_system _ _ (js "ffmpeg")
              (buildFfmpegArgs (js "/tmp/pi-voice-a1/recording.wav") (js ":0"))
              0%nat eq_refl)
    as (_ & _ & Hcount & Hrun & _).
  - right. left. reflexivity.
  - split; [exact Hcount | exact Hrun].
Defined.

Lemma ffmpeg_lookup_is_cached_witness :
  exists s' eff,
    Orchestration.step (fun lit => lit) (js "/home/u")
      (Orchestration.shortcut (Orchestration.mkCtx true) test_host)
      stopping_system
    = Some (s', eff) /\
    ~ In (Orchestration.exec (js "which") [js "ffmpeg"]) eff.
Proof.
  eexists. eexists. split; [reflexivity|].
  destruct (@ffmpeg_lookup_is_cached (fun lit => lit) (js "/home/u")
              (Orchestration.shortcut (Orchestration.mkCtx true) test_host)
              stopping_system _ _ true eq_refl eq_refl)
    as [_ Hnone].
  apply Hnone.
Defined.

Lemma ffmpeg_missing_is_final_witness :
  exists s',
    Orchestration.run (fun lit => lit) (js "/home/u")
      [Orchestration.shortcut (Orchestration.mkCtx true) test_host;
       Orchestration.resume 0 (Orchestration.settled (Ok 0%Z)) test_host]
      missing_system
    = Some s' /\
    Orchestration.spawned s' = 0%nat /\
    Orchestration.recording (Orchestration.closure s') = None.
Proof.
  eexists. split; [reflexivity|].
  destruct (@ffmpeg_missing_is_final (fun lit => lit) (js "/home/u")) as [_ Hfinal].
  destruct (Hfinal
              [Orchestration.shortcut (Orchestration.mkCtx true) test_host;
               Orchestration.resume 0 (Orchestration.settled (Ok 0%Z)) test_host]
              missing_system _ (conj eq_refl eq_refl) eq_refl)
    as (_ & Hcount & Hnone).
  split; [exact Hcount | apply Hnone; reflexivity].
Defined.

Lemma microphone_prompt_only_until_remembered_witness :
  ~ In (Orchestration.ui_input (js "Select microphone")
          (js "Enter avfoundation input (e.g. :0 or 0:0). Default is :0"))
       (snd (Orchestration.start_after_ffmpeg (Orchestration.mkCtx true)
               (Some true) (Ok 0%Z) plain_host stopping_system)).
Proof.
  assert (Hreach : Orchestration.reachable (fun lit => lit) (js "/home/u") test_fs
                     stopping_system).
  { apply (@run_reachable (fun lit => lit) (js "/home/u") test_fs
             [Orchestration.shortcut (Orchestration.mkCtx true) test_host]
             recording_system).
    - apply recording_system_reachable.
    - reflexivity. }
  destruct (@microphone_prompt_only_until_remembered (fun lit => lit) (js "/home/u")
              test_fs stopping_system Hreach)
    as (_ & _ & Hprompt).
  apply (Hprompt (js ":0")); [reflexivity | discriminate].
Defined.

Lemma toggles_ignored_while_transcribing_witness :
  Orchestration.shortcut_handler (Orchestration.mkCtx true) test_host
    transcribing_system
  = (transcribing_system, []).
Proof.
  exact (proj1 (@toggles_ignored_while_transcribing None (Orchestration.mkCtx true)
                  test_host transcribing_system eq_refl)).
Defined.

Lemma voice_input_override_witness :
  Orchestration.recording
    (Orchestration.closure
       (fst (Orchestration.start_after_ffmpeg (Orchestration.mkCtx true)
               (Some true) (Ok 0%Z) test_host stopping_system)))
  = Some (Orchestration.mkRecording 1 (js "/tmp/pi-voice-a1/recording.wav")
            (js "/tmp/pi-voice-a1/ffmpeg.log") (js ":0") 1000).
Proof.
  destruct (@voice_input_override (Orchestration.mkCtx true) (Ok 0%Z) test_host
              stopping_system (js "/tmp/pi-voice-a1") eq_refl)
    as [Hused _].
  destruct (Hused (js ":0") eq_refl) as [Hrec _]; [discriminate|].
  exact Hrec.
Defined.

Lemma stop_always_reports_witness :
  exists text,
    text = js " git status " /\
    js "git status" = trim text.
Proof.
  destruct (@stop_always_reports test_session
              (Orchestration.transcribed (Ok (js " git status "))) test_host
              transcribing_system)
    as (_ & _ & _ & _ & Heditor).
  destruct (Heditor (js "git status")) as (text & Ho & Ht & _).
  - left. reflexivity.
  - exists text. split; [congruence | exact Ht].
Defined.


Lemma recording_is_uploaded_as_wav_witness :
  exists r,
    Orchestration.recording
      (Orchestration.closure
         (fst (Orchestration.spawn_recording (Orchestration.mkCtx true) None
                 test_host stopping_system)))
    = Some r /\
    Orchestration.filePath r = js "/tmp/pi-voice-a1" ++ js "/recording.wav".
Proof.
  destruct (@recording_is_uploaded_as_wav (Orchestration.mkCtx true) None test_host
              stopping_system (js "/tmp/pi-voice-a1") eq_refl)
    as (r & Hrec & Hpath & _).
  exists r. split; [exact Hrec | exact Hpath].
Defined.

Lemma stop_reports_missing_key_witness :
  Transcribe.transcribeFile (fun lit => lit) test_env
    (upload_params test_session (Orchestration.closure transcribing_system)
       (fun _ => Throw (js "unreachable")))
  = (Throw (js "VENICE_API_KEY is not set"), []).
Proof.
  exact (proj1 (@stop_reports_missing_key (fun lit => lit) test_env test_session
                  (Orchestration.closure transcribing_system)
                  (fun _ => Throw (js "unreachable")) test_host transcribing_system
                  eq_refl)).
Defined.
